(** * EMS response-time analytics: a shallow embedding of [ems_analytics.py]

    The script loads a table of emergency incidents, coerces the two
    response-time columns to numbers, drops the rows that lack a borough or a
    dispatch time, and derives per-borough statistics, performance buckets,
    comparison scores and a correlation matrix from what is left.

    Numbers.  A pandas float is modelled as [option Q]: [Some q] is the finite
    value [q] and [None] is a value that is not a finite number (NaN, which is
    also how pandas writes a missing entry).  Arithmetic is exact on the
    rationals; the rounding of binary64 is not modelled, the explicit
    [.round(n)] calls of the script are.  Where binary64 lands a step away
    from the exact value, the code and this model can differ in the last
    digit: a value at the exact half may round the other way, and two
    formulas that agree on the rationals may differ by a unit in the last
    place.  The statements below are about orders, ranges and counts, which
    rounding to the nearest keeps.  Infinite values are not modelled: a
    dispatch time is a finite number or missing.  Results are kept in lowest
    terms ([Qred]), so that a value has one representation, as a float has. *)

From Stdlib Require Import ZArith QArith Qround List String Bool Arith.
From Stdlib Require Import Permutation Sorted Psatz.
From Stdlib Require Reals Qreals.
Import ListNotations.

Local Open Scope Q_scope.

(** ** Exceptions *)

Module Exn.

Inductive exn : Type :=
| ValueError (msg : string)
| KeyError (msg : string)
| IndexError (msg : string).

Inductive result (A : Type) : Type :=
| Ok (a : A)
| Raise (e : exn).

Arguments Ok {A} a.
Arguments Raise {A} e.

Definition bind {A B : Type} (m : result A) (k : A -> result B) : result B :=
  match m with
  | Ok a => k a
  | Raise e => Raise e
  end.

Fixpoint mapM {A B : Type} (f : A -> result B) (l : list A) : result (list B) :=
  match l with
  | [] => Ok []
  | a :: t =>
      bind (f a) (fun b => bind (mapM f t) (fun bs => Ok (b :: bs)))
  end.

End Exn.

Import Exn.

Notation "x <- m ;; k" := (bind m (fun x => k))
  (at level 61, m at next level, right associativity).

(** ** Floats *)

Definition float : Type := option Q.

Definition of_Z (z : Z) : float := Some (inject_Z z).
Definition of_nat (n : nat) : float := of_Z (Z.of_nat n).

Definition notna {A : Type} (v : option A) : bool :=
  match v with Some _ => true | None => false end.

Definition fsub (a b : float) : float :=
  match a, b with
  | Some x, Some y => Some (Qred (x - y))
  | _, _ => None
  end.

Definition fmul (a b : float) : float :=
  match a, b with
  | Some x, Some y => Some (Qred (x * y))
  | _, _ => None
  end.

(** Division of numpy floats: [0/0] is NaN and [x/0] is an infinity, both
    under a warning and neither a finite number. *)
Definition fdiv (a b : float) : float :=
  match a, b with
  | Some x, Some y => if Qeq_bool y 0 then None else Some (Qred (x / y))
  | _, _ => None
  end.

(** Comparisons with a NaN operand are false. *)
Definition fle (a b : float) : bool :=
  match a, b with
  | Some x, Some y => Qle_bool x y
  | _, _ => false
  end.

Definition flt (a b : float) : bool :=
  match a, b with
  | Some x, Some y => negb (Qle_bool y x)
  | _, _ => false
  end.

Definition fgt (a b : float) : bool := flt b a.

(** Round half to even, as [numpy.rint]. *)
Definition rint (q : Q) : Z :=
  let f := Qfloor q in
  match Qcompare (q - inject_Z f) (1 # 2) with
  | Lt => f
  | Gt => (f + 1)%Z
  | Eq => if Z.even f then f else (f + 1)%Z
  end.

Definition pow10 (n : nat) : Q := inject_Z (10 ^ Z.of_nat n).

(** [numpy.round(x, n)]: scale, round to the nearest integer, scale back. *)
Definition round_dec (n : nat) (q : Q) : Q :=
  Qred (inject_Z (rint (q * pow10 n)) / pow10 n).

Definition fround (n : nat) (a : float) : float :=
  match a with
  | Some x => Some (round_dec n x)
  | None => None
  end.

(** ** Sorting *)

Section Sort.
Context {A : Type} (leb : A -> A -> bool).

Fixpoint insert_sorted (a : A) (l : list A) : list A :=
  match l with
  | [] => [a]
  | b :: t => if leb a b then a :: l else b :: insert_sorted a t
  end.

Fixpoint sort_by (l : list A) : list A :=
  match l with
  | [] => []
  | a :: t => insert_sorted a (sort_by t)
  end.
End Sort.

(** ** Series *)

(** The values of a column that are present. *)
Fixpoint present (s : list float) : list Q :=
  match s with
  | [] => []
  | Some q :: t => q :: present t
  | None :: t => present t
  end.

(** [Series.count()]: the number of entries that are not missing. *)
Definition series_count {A : Type} (s : list (option A)) : nat :=
  List.length (filter notna s).

(** The sum with missing entries taken as 0, as pandas' [nansum]. *)
Fixpoint nansum (s : list float) : Q :=
  match s with
  | [] => 0
  | Some q :: t => q + nansum t
  | None :: t => nansum t
  end.

(** [Series.mean()]: [nansum] over the count; NaN when nothing is present. *)
Definition series_mean (s : list float) : float :=
  match series_count s with
  | O => None
  | S _ as n => Some (Qred (nansum s / inject_Z (Z.of_nat n)))
  end.

(** [Series.median()]: the middle of the sorted present values. *)
Definition series_median (s : list float) : float :=
  let v := sort_by Qle_bool (present s) in
  let n := List.length v in
  match n with
  | O => None
  | _ =>
      if Nat.even n
      then Some (Qred ((nth (n / 2 - 1) v 0 + nth (n / 2) v 0) / 2))
      else Some (nth (n / 2) v 0)
  end.

Definition qmin (a b : Q) : Q := if Qle_bool a b then a else b.
Definition qmax (a b : Q) : Q := if Qle_bool a b then b else a.

(** [Series.min()] and [Series.max()] skip missing entries. *)
Definition series_min (s : list float) : float :=
  match present s with
  | [] => None
  | q :: t => Some (fold_left qmin t q)
  end.

Definition series_max (s : list float) : float :=
  match present s with
  | [] => None
  | q :: t => Some (fold_left qmax t q)
  end.

(** [s <= c] and [s > c] on a column: false where the entry is missing. *)
Definition le_scalar (c : Q) (s : list float) : list bool :=
  map (fun v => fle v (Some c)) s.

Definition gt_scalar (c : Q) (s : list float) : list bool :=
  map (fun v => fgt v (Some c)) s.

(** [.sum()] and [.mean()] of a boolean column. *)
Definition bool_sum (bs : list bool) : nat := List.length (filter (fun b : bool => b) bs).

Definition bool_mean (bs : list bool) : float :=
  match bs with
  | [] => None
  | _ => Some (Qred (inject_Z (Z.of_nat (bool_sum bs))
                     / inject_Z (Z.of_nat (List.length bs))))
  end.

(** ** The incident table *)

(** A cell of a response-time column as it comes from the CSV file: a value
    that [pd.to_numeric] can convert (a number, or text that spells one, with
    the finite value it converts to), text that it cannot convert, or
    nothing.  Text such as "inf", which [pd.to_numeric] turns into an
    infinity, has no counterpart here. *)
Inductive cell : Type :=
| Numeric (q : Q)
| Malformed (s : string)
| Missing.

Module Raw.
Record row : Type := {
  borough : option string;
  final_call_type : string;
  dispatch_response_seconds_qy : cell;
  incident_response_seconds_qy : cell
}.
End Raw.

Module Incident.
Record row : Type := {
  borough : option string;
  final_call_type : string;
  dispatch_response_seconds_qy : float;
  incident_response_seconds_qy : float
}.
End Incident.

(** The [errors] argument of [pd.to_numeric]. *)
Inductive errors_mode : Type := errors_raise | errors_coerce.

Definition to_numeric (errors : errors_mode) (c : cell) : result float :=
  match c with
  | Numeric q => Ok (Some q)
  | Missing => Ok None
  | Malformed s =>
      match errors with
      | errors_coerce => Ok None
      | errors_raise => Raise (ValueError s)
      end
  end.

(** Lines 20 and 21, on one row: the incident column first, then the dispatch
    column, both with [errors='coerce']. *)
Definition coerce_row (r : Raw.row) : result Incident.row :=
  i <- to_numeric errors_coerce (Raw.incident_response_seconds_qy r) ;;
  d <- to_numeric errors_coerce (Raw.dispatch_response_seconds_qy r) ;;
  Ok {| Incident.borough := Raw.borough r;
        Incident.final_call_type := Raw.final_call_type r;
        Incident.dispatch_response_seconds_qy := d;
        Incident.incident_response_seconds_qy := i |}.

Definition working_dataset (raw : list Raw.row) : result (list Incident.row) :=
  mapM coerce_row raw.

(** [dropna(subset=['dispatch_response_seconds_qy', 'borough'])]. *)
Definition dropna (rows : list Incident.row) : list Incident.row :=
  filter (fun r => notna (Incident.dispatch_response_seconds_qy r)
                   && notna (Incident.borough r)) rows.

(** Line 22. *)
Definition clean_dataset (raw : list Raw.row) : result (list Incident.row) :=
  w <- working_dataset raw ;;
  Ok (dropna w).

(** ** Grouping by borough *)

Definition in_group (k : string) (r : Incident.row) : bool :=
  match Incident.borough r with
  | Some b => String.eqb b k
  | None => false
  end.

Fixpoint keys_of (ds : list Incident.row) : list string :=
  match ds with
  | [] => []
  | r :: t =>
      match Incident.borough r with
      | Some b => b :: keys_of t
      | None => keys_of t
      end
  end.

(** The group keys: the distinct boroughs, in increasing order; rows without
    a borough belong to no group. *)
Definition group_keys (ds : list Incident.row) : list string :=
  sort_by String.leb (nodup string_dec (keys_of ds)).

Definition groupby (ds : list Incident.row) : list (string * list Incident.row) :=
  map (fun k => (k, filter (in_group k) ds)) (group_keys ds).

Definition dispatch_col (g : list Incident.row) : list float :=
  map Incident.dispatch_response_seconds_qy g.

Definition incident_col (g : list Incident.row) : list float :=
  map Incident.incident_response_seconds_qy g.

(** ** Per-borough statistics (lines 45-53)

    The [std] column needs a square root and is read by nothing that follows;
    it is left out. *)
Module Stats.
Record row : Type := {
  borough : string;
  avg_dispatch_sec : float;
  median_dispatch_sec : float;
  total_calls : Z;
  avg_incident_sec : float;
  median_incident : float
}.
End Stats.

(** The aggregates of one group. *)
Definition stats_row (k : string) (g : list Incident.row) : Stats.row :=
  {| Stats.borough := k;
     Stats.avg_dispatch_sec := fround 2 (series_mean (dispatch_col g));
     Stats.median_dispatch_sec := fround 2 (series_median (dispatch_col g));
     Stats.total_calls := Z.of_nat (series_count (dispatch_col g));
     Stats.avg_incident_sec := fround 2 (series_mean (incident_col g));
     Stats.median_incident := fround 2 (series_median (incident_col g)) |}.

Definition borough_stats (ds : list Incident.row) : list Stats.row :=
  map (fun kg => stats_row (fst kg) (snd kg)) (groupby ds).

(** ** Compliance metrics (lines 56-63) *)
Module Metrics.
Record row : Type := {
  borough : string;
  meets_5min : float;
  meets_8min : float;
  extreme_delays : float
}.
End Metrics.

(** The function applied to each group [x]. *)
Definition metrics_row (k : string) (x : list Incident.row) : Metrics.row :=
  {| Metrics.borough := k;
     Metrics.meets_5min :=
       fround 2 (fmul (bool_mean (le_scalar 300 (dispatch_col x))) (Some 100));
     Metrics.meets_8min :=
       fround 2 (fmul (bool_mean (le_scalar 480 (dispatch_col x))) (Some 100));
     Metrics.extreme_delays :=
       fround 2 (of_nat (bool_sum (gt_scalar 600 (dispatch_col x)))) |}.

Definition performance_metrics (ds : list Incident.row) : list Metrics.row :=
  map (fun kg => metrics_row (fst kg) (snd kg)) (groupby ds).

(** ** The master table (line 65) *)
Module Master.
Record row : Type := {
  borough : string;
  avg_dispatch_sec : float;
  median_dispatch_sec : float;
  total_calls : Z;
  avg_incident_sec : float;
  median_incident : float;
  meets_5min : float;
  meets_8min : float;
  extreme_delays : float
}.
End Master.

Definition join (s : Stats.row) (m : Metrics.row) : Master.row :=
  {| Master.borough := Stats.borough s;
     Master.avg_dispatch_sec := Stats.avg_dispatch_sec s;
     Master.median_dispatch_sec := Stats.median_dispatch_sec s;
     Master.total_calls := Stats.total_calls s;
     Master.avg_incident_sec := Stats.avg_incident_sec s;
     Master.median_incident := Stats.median_incident s;
     Master.meets_5min := Metrics.meets_5min m;
     Master.meets_8min := Metrics.meets_8min m;
     Master.extreme_delays := Metrics.extreme_delays m |}.

(** [left.merge(right, on='borough')]: the inner join on the borough. *)
Definition merge (left : list Stats.row) (right : list Metrics.row)
  : list Master.row :=
  flat_map (fun s =>
              map (join s)
                  (filter (fun m => String.eqb (Metrics.borough m) (Stats.borough s))
                          right))
           left.

Definition master_data (ds : list Incident.row) : list Master.row :=
  merge (borough_stats ds) (performance_metrics ds).

(** ** Performance buckets (lines 68-73) *)

Inductive bucket : Type := Excellent | Good | Poor | Critical.

Definition bucket_eqb (a b : bucket) : bool :=
  match a, b with
  | Excellent, Excellent | Good, Good | Poor, Poor | Critical, Critical => true
  | _, _ => false
  end.

Definition label (b : bucket) : string :=
  match b with
  | Excellent => "Excellent (<5min)"
  | Good => "Good (5-8min)"
  | Poor => "Poor (8-10min)"
  | Critical => "Critical (>10min)"
  end.

(** A bin edge: a number or [np.inf]. *)
Inductive edge : Type := Fin (q : Q) | Inf.

(** [lo < x] and [x <= hi] for a finite [x]. *)
Definition edge_ltb (lo : edge) (x : Q) : bool :=
  match lo with
  | Fin b => negb (Qle_bool x b)
  | Inf => false
  end.

Definition edge_geb (hi : edge) (x : Q) : bool :=
  match hi with
  | Fin b => Qle_bool x b
  | Inf => true
  end.

(** [pd.cut(x, bins, labels)] with its defaults [right=True] and
    [include_lowest=False]: the label of the interval [(lo, hi]] between two
    consecutive edges that holds [x], and nothing when no interval does. *)
Fixpoint cut_value {A : Type} (bins : list edge) (labels : list A) (x : Q)
  : option A :=
  match bins with
  | [] => None
  | lo :: rest =>
      match rest, labels with
      | hi :: _, lab :: labs =>
          if edge_ltb lo x && edge_geb hi x then Some lab
          else cut_value rest labs x
      | _, _ => None
      end
  end.

Definition cut {A : Type} (bins : list edge) (labels : list A) (v : float)
  : option A :=
  match v with
  | Some x => cut_value bins labels x
  | None => None
  end.

Definition bins : list edge := [Fin 0; Fin 300; Fin 480; Fin 600; Inf].
Definition categories : list bucket := [Excellent; Good; Poor; Critical].

(** The [perf_bucket] column of a row. *)
Definition perf_bucket (r : Incident.row) : option bucket :=
  cut bins categories (Incident.dispatch_response_seconds_qy r).

Definition has_bucket (b : bucket) (r : Incident.row) : bool :=
  match perf_bucket r with
  | Some b' => bucket_eqb b' b
  | None => false
  end.

Definition count_bucket (b : bucket) (ds : list Incident.row) : nat :=
  List.length (filter (has_bucket b) ds).

(** [value_counts()] of the categorical column: one row per category, rows
    without a bucket not counted, largest count first. *)
Definition bucket_counts (ds : list Incident.row) : list (bucket * nat) :=
  sort_by (fun a b : bucket * nat => Nat.leb (snd b) (snd a))
          (map (fun b => (b, count_bucket b ds)) categories).

Definition incidents_total (t : list (bucket * nat)) : nat :=
  fold_right (fun bn acc => (snd bn + acc)%nat) O t.

(** ** Bucket shares per borough (lines 191-192) *)

(** [pd.crosstab(borough, perf_bucket, normalize='index') * 100], rounded to
    one decimal: rows that lack a borough or a bucket are not tabulated, each
    borough's counts are divided by that borough's tabulated total, and the
    table has a column only for the buckets that some incident falls in. *)
Definition tabulated (ds : list Incident.row) : list Incident.row :=
  filter (fun r => notna (perf_bucket r)) ds.

Definition share (b : bucket) (g : list Incident.row) : float :=
  fround 1 (fmul (fdiv (of_nat (count_bucket b g)) (of_nat (List.length g)))
                 (Some 100)).

Definition crossed (ds : list Incident.row) : list Incident.row :=
  filter (fun r => notna (Incident.borough r)) (tabulated ds).

Definition observed (ds : list Incident.row) : list bucket :=
  filter (fun b => negb (Nat.eqb (count_bucket b (crossed ds)) 0)) categories.

Definition perf_by_borough (ds : list Incident.row)
  : list (string * list (bucket * float)) :=
  map (fun kg : string * list Incident.row =>
         let (k, g) := kg in
         (k, map (fun b => (b, share b g)) (observed ds)))
      (groupby (tabulated ds)).

(** ** Citywide figures (lines 76-88) *)

Record kpi : Type := {
  kpi_total_calls : nat;
  system_avg_min : float;
  overall_8min_rate : float;
  kpi_extreme_delays : nat;
  below_target : bool
}.

Definition kpi_summary (ds : list Incident.row) : kpi :=
  let rate := fmul (bool_mean (le_scalar 480 (dispatch_col ds))) (Some 100) in
  {| kpi_total_calls := List.length ds;
     system_avg_min := fdiv (series_mean (dispatch_col ds)) (Some 60);
     overall_8min_rate := rate;
     kpi_extreme_delays := bool_sum (gt_scalar 600 (dispatch_col ds));
     below_target := flt rate (Some 90) |}.

(** ** Best, worst and busiest borough (lines 90-100) *)

(** The position of the first entry that no other present entry beats. *)
Fixpoint arg_best (better : Q -> Q -> bool) (s : list float) (i : nat)
                  (best : option (nat * Q)) : option (nat * Q) :=
  match s with
  | [] => best
  | None :: t => arg_best better t (S i) best
  | Some q :: t =>
      match best with
      | None => arg_best better t (S i) (Some (i, q))
      | Some (_, b) =>
          if better q b then arg_best better t (S i) (Some (i, q))
          else arg_best better t (S i) best
      end
  end.

Definition idx_best (better : Q -> Q -> bool) (s : list float) : result nat :=
  match s with
  | [] => Raise (ValueError "attempt to get argmax of an empty sequence")
  | _ =>
      match arg_best better s O None with
      | Some (i, _) => Ok i
      | None => Raise (KeyError "nan")
      end
  end.

(** [Series.idxmax()] and [Series.idxmin()]: they raise on an empty column. *)
Definition idxmax : list float -> result nat :=
  idx_best (fun q b => negb (Qle_bool q b)).

Definition idxmin : list float -> result nat :=
  idx_best (fun q b => negb (Qle_bool b q)).

(** [master_data.loc[i]]. *)
Definition loc (master : list Master.row) (i : nat) : result Master.row :=
  match nth_error master i with
  | Some r => Ok r
  | None => Raise (KeyError "loc")
  end.

Record insights : Type := {
  best_borough : Master.row;
  worst_borough : Master.row;
  busiest_borough : Master.row;
  boroughs_under_80 : nat;
  reallocation_needed : bool
}.

(** [master_data['meets_8min']].  The compliance columns are made by the
    function applied to each group; with no group the grouped apply returns a
    frame without them, and the lookup of the column raises. *)
Definition meets_8min_column (master : list Master.row) : result (list float) :=
  match master with
  | [] => Raise (KeyError "meets_8min")
  | _ => Ok (map Master.meets_8min master)
  end.

Definition key_insights (master : list Master.row) (rate : float)
  : result insights :=
  c <- meets_8min_column master ;;
  ibest <- idxmax c ;;
  best <- loc master ibest ;;
  c <- meets_8min_column master ;;
  iworst <- idxmin c ;;
  worst <- loc master iworst ;;
  ibusy <- idxmax (map (fun r => of_Z (Master.total_calls r)) master) ;;
  busiest <- loc master ibusy ;;
  c <- meets_8min_column master ;;
  Ok {| best_borough := best;
        worst_borough := worst;
        busiest_borough := busiest;
        boroughs_under_80 := bool_sum (map (fun v => flt v (Some 80)) c);
        reallocation_needed := flt rate (Some 85) |}.

(** ** Comparison scores for the radar chart (lines 252-269) *)

Definition speed_score (master : list Master.row) (borough_row : Master.row)
  : float :=
  let avg := map Master.avg_dispatch_sec master in
  fsub (Some 100)
       (fmul (fdiv (fsub (Master.avg_dispatch_sec borough_row) (series_min avg))
                   (fsub (series_max avg) (series_min avg)))
             (Some 100)).

Definition reliability_score (master : list Master.row)
                             (borough_row : Master.row) : float :=
  let delays := map Master.extreme_delays master in
  if fgt (series_max delays) (Some 0)
  then fsub (Some 100)
            (fmul (fdiv (Master.extreme_delays borough_row) (series_max delays))
                  (Some 100))
  else Some 100.

(** [frame.iloc[0]]. *)
Definition iloc0 {A : Type} (rows : list A) : result A :=
  match rows with
  | r :: _ => Ok r
  | [] => Raise (IndexError "single positional indexer is out-of-bounds")
  end.

Record trace : Type := {
  trace_name : string;
  trace_r : list float
}.

Definition radar_trace (master : list Master.row) (borough_name : string)
  : result trace :=
  borough_row <-
    iloc0 (filter (fun r => String.eqb (Master.borough r) borough_name) master) ;;
  Ok {| trace_name := borough_name;
        trace_r := [Master.meets_8min borough_row;
                    speed_score master borough_row;
                    Master.meets_5min borough_row;
                    reliability_score master borough_row] |}.

Definition fig_radar (master : list Master.row) : result (list trace) :=
  mapM (radar_trace master) (map Master.borough master).

(** ** Correlation matrix (line 279)

    [DataFrame.corr()] is the Pearson correlation of each pair of columns
    over the rows where both are present: the co-moment over the square root
    of the product of the two second moments, and a missing entry where that
    divisor is zero or no row is left.  pandas computes each pair once and
    writes it at both positions; here every entry is computed.  The square
    root leaves the rationals, so an entry is a real number; in binary64 an
    entry can lie a rounding step away from it. *)

Inductive metric : Type :=
| Avg_dispatch_sec | Total_calls | Meets_5min | Meets_8min | Extreme_delays.

Definition column (master : list Master.row) (m : metric) : list float :=
  match m with
  | Avg_dispatch_sec => map Master.avg_dispatch_sec master
  | Total_calls => map (fun r => of_Z (Master.total_calls r)) master
  | Meets_5min => map Master.meets_5min master
  | Meets_8min => map Master.meets_8min master
  | Extreme_delays => map Master.extreme_delays master
  end.

(** The rows where both columns are present. *)
Fixpoint pairs (x y : list float) : list (Q * Q) :=
  match x, y with
  | a :: x', b :: y' =>
      match a, b with
      | Some p, Some q => (p, q) :: pairs x' y'
      | _, _ => pairs x' y'
      end
  | _, _ => []
  end.

Definition qsum (l : list Q) : Q := fold_right Qplus 0 l.

Definition qmean (l : list Q) : Q := qsum l / inject_Z (Z.of_nat (List.length l)).

(** Sum of squared deviations from the mean, and the co-moment. *)
Definition ssqdm (l : list Q) : Q :=
  qsum (map (fun v => (v - qmean l) * (v - qmean l)) l).

Definition covxy (ps : list (Q * Q)) : Q :=
  let mx := qmean (map fst ps) in
  let my := qmean (map snd ps) in
  qsum (map (fun p => (fst p - mx) * (snd p - my)) ps).

Module Corr.
Import Reals Qreals.

Definition pearson_pairs (ps : list (Q * Q)) : option R :=
  match ps with
  | [] => None
  | _ =>
      let divisor :=
        sqrt (Q2R (ssqdm (map fst ps) * ssqdm (map snd ps))) in
      if Req_dec_T divisor 0%R then None
      else Some (Q2R (covxy ps) / divisor)%R
  end.

Definition pearson (x y : list float) : option R :=
  pearson_pairs (pairs x y).

Definition corr_matrix (master : list Master.row) (a b : metric) : option R :=
  pearson (column master a) (column master b).
End Corr.

(** ** The run

    What the script shows, in order, and where it stops.  A widget is named
    after the variable it displays. *)

Inductive widget : Type :=
| Text (s : string)
| Table (name : string)
| Plot (name : string).

Definition script (A : Type) : Type := list widget -> list widget * result A.

Definition ret {A : Type} (a : A) : script A := fun out => (out, Ok a).

Definition lift {A : Type} (r : result A) : script A := fun out => (out, r).

Definition emit (w : widget) : script unit := fun out => (out ++ [w], Ok tt).

Definition sbind {A B : Type} (m : script A) (k : A -> script B) : script B :=
  fun out =>
    match m out with
    | (out', Ok a) => k a out'
    | (out', Raise e) => (out', Raise e)
    end.

Notation "x <~ m ;; k" := (sbind m (fun x => k))
  (at level 61, m at next level, right associativity).
Notation "m >> k" := (sbind m (fun _ => k))
  (at level 61, right associativity).

Record report : Type := {
  rep_master : list Master.row;
  rep_bucket_counts : list (bucket * nat);
  rep_kpi : kpi;
  rep_insights : insights;
  rep_perf_by_borough : list (string * list (bucket * float));
  rep_radar : list trace
}.

(** [px.scatter(..., size='avg_dispatch_sec')]: a marker size must not be
    negative. *)
Definition marker_size (sizes : list float) : result unit :=
  if existsb (fun v => flt v (Some 0)) sizes
  then Raise (ValueError "Invalid element(s) received for the 'size' property of scatter.marker")
  else Ok tt.

(** Lines 12 to 290.  The closing part of the script (the results of the
    queries over the raw table and the optional daily trend) is left out, and
    of the chart calls only the size check of the scatter chart is
    modelled. *)
Definition main (raw : list Raw.row) : script report :=
  clean <~ lift (clean_dataset raw) ;;
  emit (Text "# NYC EMS RESPONSE TIME ANALYSIS") >>
  emit (Text "*Comprehensive performance dashboard for emergency medical services*") >>
  let master := master_data clean in
  let counts := bucket_counts clean in
  let summary := kpi_summary clean in
  found <~ lift (key_insights master (overall_8min_rate summary)) ;;
  emit (Text "## EXECUTIVE OVERVIEW") >>
  emit (Table "kpi_summary") >>
  emit (Plot "fig_main") >>
  emit (Table "key_insights") >>
  emit (Text "## DETAILED BOROUGH METRICS") >>
  emit (Table "master_data") >>
  emit (Plot "fig_dist") >>
  lift (marker_size (map Master.avg_dispatch_sec master)) >>
  emit (Plot "fig_scatter") >>
  emit (Text "## COMPARATIVE ANALYSIS BY BOROUGH") >>
  emit (Table "comparison_metrics") >>
  let shares := perf_by_borough clean in
  emit (Plot "fig_stacked") >>
  emit (Plot "fig_variability") >>
  emit (Text "## ADVANCED PERFORMANCE INSIGHTS") >>
  emit (Table "percentile_minutes") >>
  radar <~ lift (fig_radar master) ;;
  emit (Plot "fig_radar") >>
  emit (Plot "fig_corr") >>
  ret {| rep_master := master;
         rep_bucket_counts := counts;
         rep_kpi := summary;
         rep_insights := found;
         rep_perf_by_borough := shares;
         rep_radar := radar |}.

Definition run (raw : list Raw.row) : list widget * result report :=
  main raw [].

(** ** Tables sorted for display (lines 111, 137 and 188)

    [sort_values('meets_8min', ascending=False)]: largest value first, rows
    without a value last.  pandas does not promise an order among rows with
    equal values; here they keep the order they had. *)

Definition desc_leb (x y : float) : bool :=
  match x, y with
  | Some p, Some q => Qle_bool q p
  | Some _, None => true
  | None, Some _ => false
  | None, None => true
  end.

Definition sort_values_desc {A : Type} (key : A -> float) (l : list A) : list A :=
  sort_by (fun a b => desc_leb (key a) (key b)) l.

Definition sorted_data (master : list Master.row) : list Master.row :=
  sort_values_desc Master.meets_8min master.

(** ** Comparison table (lines 185-188) *)

Module Comparison.
Record row : Type := {
  borough : string;
  meets_5min : float;
  meets_8min : float;
  total_calls : Z;
  extreme_delays : float;
  avg_minutes : float
}.
End Comparison.

Definition comparison_row (r : Master.row) : Comparison.row :=
  {| Comparison.borough := Master.borough r;
     Comparison.meets_5min := Master.meets_5min r;
     Comparison.meets_8min := Master.meets_8min r;
     Comparison.total_calls := Master.total_calls r;
     Comparison.extreme_delays := Master.extreme_delays r;
     Comparison.avg_minutes :=
       fround 1 (fdiv (Master.avg_dispatch_sec r) (Some 60)) |}.

Definition comparison_metrics (master : list Master.row) : list Comparison.row :=
  map comparison_row master.

(** ** Percentiles (lines 239-246) *)

(** The quantile of a sorted list by linear interpolation: the position
    [q * (n - 1)] is split into an index and a fraction; a position that
    falls on an entry gives that entry, any other moves from the entry at the
    index towards the next by the fraction. *)
Definition quantile_sorted (v : list Q) (q : Q) : float :=
  match v with
  | [] => None
  | _ =>
      let n := List.length v in
      let pos := q * inject_Z (Z.of_nat (n - 1)) in
      let idx := Z.to_nat (Qfloor pos) in
      let frac := pos - inject_Z (Qfloor pos) in
      let val := nth idx v 0 in
      if Qeq_bool frac 0 then Some val
      else Some (Qred (val + (nth (idx + 1) v 0 - val) * frac))
  end.

(** [Series.quantile(q)] skips missing entries. *)
Definition series_quantile (s : list float) (q : Q) : float :=
  quantile_sorted (sort_by Qle_bool (present s)) q.

Module Percentile.
Record row : Type := {
  borough : string;
  p25 : float;
  p50_median : float;
  p75 : float;
  p90 : float;
  p95 : float
}.
End Percentile.

Definition percentile_row (k : string) (g : list Incident.row) : Percentile.row :=
  {| Percentile.borough := k;
     Percentile.p25 := series_quantile (dispatch_col g) (1 # 4);
     Percentile.p50_median := series_quantile (dispatch_col g) (1 # 2);
     Percentile.p75 := series_quantile (dispatch_col g) (3 # 4);
     Percentile.p90 := series_quantile (dispatch_col g) (9 # 10);
     Percentile.p95 := series_quantile (dispatch_col g) (19 # 20) |}.

Definition percentile_data (ds : list Incident.row) : list Percentile.row :=
  map (fun kg => percentile_row (fst kg) (snd kg)) (groupby ds).

Definition to_minutes (v : float) : float := fround 1 (fdiv v (Some 60)).

Definition percentile_minutes (ds : list Incident.row) : list Percentile.row :=
  map (fun r =>
         {| Percentile.borough := Percentile.borough r;
            Percentile.p25 := to_minutes (Percentile.p25 r);
            Percentile.p50_median := to_minutes (Percentile.p50_median r);
            Percentile.p75 := to_minutes (Percentile.p75 r);
            Percentile.p90 := to_minutes (Percentile.p90 r);
            Percentile.p95 := to_minutes (Percentile.p95 r) |})
      (percentile_data ds).

(** ** Vocabulary of the statements *)

(** What [errors='coerce'] makes of a cell. *)
Definition to_float (c : cell) : float :=
  match c with
  | Numeric q => Some q
  | Malformed _ | Missing => None
  end.

Definition coerced (r : Raw.row) : Incident.row :=
  {| Incident.borough := Raw.borough r;
     Incident.final_call_type := Raw.final_call_type r;
     Incident.dispatch_response_seconds_qy :=
       to_float (Raw.dispatch_response_seconds_qy r);
     Incident.incident_response_seconds_qy :=
       to_float (Raw.incident_response_seconds_qy r) |}.

(** A raw record survives cleaning when it has a borough and its dispatch
    time converts to a number. *)
Definition survives (r : Raw.row) : bool :=
  notna (to_float (Raw.dispatch_response_seconds_qy r)) && notna (Raw.borough r).

(** The master row of the group [g] of borough [k]. *)
Definition master_row (k : string) (g : list Incident.row) : Master.row :=
  join (stats_row k g) (metrics_row k g).

(** The mean and the median of a list of numbers, nothing for no numbers. *)
Definition mean_of (l : list Q) : float :=
  match l with
  | [] => None
  | _ => Some (Qred (qsum l / inject_Z (Z.of_nat (List.length l))))
  end.

Definition median_of (l : list Q) : float :=
  let v := sort_by Qle_bool l in
  let n := List.length l in
  match l with
  | [] => None
  | _ =>
      if Nat.even n
      then Some (Qred ((nth (n / 2 - 1) v 0 + nth (n / 2) v 0) / 2))
      else Some (nth (n / 2) v 0)
  end.

(** A column is constant when its present entries are all equal. *)
Definition all_equal (s : list float) : Prop :=
  forall a b, In a (present s) -> In b (present s) -> a == b.

Definition varies (s : list float) : Prop :=
  exists a b, In a (present s) /\ In b (present s) /\ ~ a == b.

(** A row holds the least (greatest) mean dispatch time of the table. *)
Definition fastest (master : list Master.row) (r : Master.row) : Prop :=
  forall r', In r' master ->
    fle (Master.avg_dispatch_sec r) (Master.avg_dispatch_sec r') = true.

Definition slowest (master : list Master.row) (r : Master.row) : Prop :=
  forall r', In r' master ->
    fle (Master.avg_dispatch_sec r') (Master.avg_dispatch_sec r) = true.

(** A score is a number between 0 and 100. *)
Definition score_in_range (v : float) : Prop :=
  exists q, v = Some q /\ 0 <= q <= 100.

(** The rate at a threshold, as the script computes it for one group. *)
Definition rate (c : Q) (g : list Incident.row) : float :=
  fround 2 (fmul (bool_mean (le_scalar c (dispatch_col g))) (Some 100)).

Definition twice (q : Q) : Q * Q := (q, q).

Definition flip_pair (p : Q * Q) : Q * Q := (snd p, fst p).

Definition raw_row (b : option string) (d i : cell) : Raw.row :=
  {| Raw.borough := b;
     Raw.final_call_type := "";
     Raw.dispatch_response_seconds_qy := d;
     Raw.incident_response_seconds_qy := i |}.

(** ** Sample tables

    Three incidents in two boroughs, one of them with an incident response
    time that does not convert; and tables on which the run or a score
    degenerates. *)

Definition scenario_raw : list Raw.row :=
  [raw_row (Some "R1"%string) (Numeric 200) (Numeric 500);
   raw_row (Some "R1"%string) (Numeric 400) (Malformed "n/a");
   raw_row (Some "R2"%string) (Numeric 700) Missing].

Definition scenario_clean : list Incident.row := map coerced scenario_raw.

Definition scenario_R1 : Master.row :=
  {| Master.borough := "R1";
     Master.avg_dispatch_sec := Some 300;
     Master.median_dispatch_sec := Some 300;
     Master.total_calls := 2;
     Master.avg_incident_sec := Some 500;
     Master.median_incident := Some 500;
     Master.meets_5min := Some 50;
     Master.meets_8min := Some 100;
     Master.extreme_delays := Some 0 |}.

Definition scenario_R2 : Master.row :=
  {| Master.borough := "R2";
     Master.avg_dispatch_sec := Some 700;
     Master.median_dispatch_sec := Some 700;
     Master.total_calls := 1;
     Master.avg_incident_sec := None;
     Master.median_incident := None;
     Master.meets_5min := Some 0;
     Master.meets_8min := Some 0;
     Master.extreme_delays := Some 1 |}.

Definition scenario_master : list Master.row := [scenario_R1; scenario_R2].

Definition scenario_first : Incident.row :=
  coerced (raw_row (Some "R1"%string) (Numeric 200) (Numeric 500)).

Definition scenario_second : Incident.row :=
  coerced (raw_row (Some "R1"%string) (Numeric 400) (Malformed "n/a")).

Definition scenario_group_R1 : list Incident.row :=
  filter (in_group "R1") scenario_clean.

Definition scenario_stats_R1 : Stats.row := stats_row "R1" scenario_group_R1.

(** Nothing survives: one record lacks a borough, the other a dispatch time
    that converts. *)
Definition unusable_raw : list Raw.row :=
  [raw_row None (Numeric 120) (Numeric 300);
   raw_row (Some "R1"%string) (Malformed "unknown") (Numeric 300)].

(** No dispatch time above 600 seconds. *)
Definition prompt_raw : list Raw.row :=
  [raw_row (Some "R1"%string) (Numeric 200) Missing;
   raw_row (Some "R2"%string) (Numeric 600) Missing].

Definition prompt_clean : list Incident.row := map coerced prompt_raw.

Definition prompt_R2 : Master.row :=
  master_row "R2" (filter (in_group "R2") prompt_clean).

(** Two boroughs whose mean dispatch times differ by a thousandth of a
    second. *)
Definition close_means_raw : list Raw.row :=
  [raw_row (Some "R1"%string) (Numeric 100) Missing;
   raw_row (Some "R2"%string) (Numeric (100001 # 1000)) Missing].



(** The table of the two close means, cleaned, and its master rows. *)
Definition close_means_clean : list Incident.row := map coerced close_means_raw.

Definition close_means_master : list Master.row := master_data close_means_clean.

Definition close_means_R1 : Master.row :=
  master_row "R1" (filter (in_group "R1") close_means_clean).

Definition close_means_R2 : Master.row :=
  master_row "R2" (filter (in_group "R2") close_means_clean).

(** One record with a dispatch time of zero and an incident response time
    that does not convert. *)
Definition zero_unparsed_raw : list Raw.row :=
  [raw_row (Some "BRONX"%string) (Numeric 0) (Malformed "n/a")].

Definition zero_unparsed : Incident.row :=
  coerced (raw_row (Some "BRONX"%string) (Numeric 0) (Malformed "n/a")).

(** Sums of a column of integers and of a column of naturals. *)
Definition zsum (l : list Z) : Z := fold_right Z.add 0%Z l.

Definition nsum (l : list nat) : nat := fold_right Nat.add 0%nat l.

(** Orders on the rows of a sorted table. *)
Definition string_le (a b : string) : Prop := String.leb a b = true.

Definition count_ge (a b : bucket * nat) : Prop := (snd b <= snd a)%nat.

Definition rate_ge (a b : Master.row) : Prop :=
  desc_leb (Master.meets_8min a) (Master.meets_8min b) = true.

(** The trace the radar chart draws for a row of the master table. *)
Definition trace_of (master : list Master.row) (row : Master.row) : trace :=
  {| trace_name := Master.borough row;
     trace_r := [Master.meets_8min row;
                 speed_score master row;
                 Master.meets_5min row;
                 reliability_score master row] |}.

(** The order of the buckets, fastest first. *)
Definition bucket_rank (b : bucket) : nat :=
  match b with
  | Excellent => 0
  | Good => 1
  | Poor => 2
  | Critical => 3
  end.

(** The value at a position of a sorted list, between the entry at the
    whole part of the position and the next. *)
Definition interp (v : list Q) (pos : Q) : Q :=
  let i := Z.to_nat (Qfloor pos) in
  nth i v 0 + (nth (i + 1) v 0 - nth i v 0) * (pos - inject_Z (Qfloor pos)).

Definition q_le (a b : Q) : Prop := Qle_bool a b = true.

(** What the run on the scenario reports. *)
Definition scenario_insights : insights :=
  {| best_borough := scenario_R1;
     worst_borough := scenario_R2;
     busiest_borough := scenario_R1;
     boroughs_under_80 := 1;
     reallocation_needed := true |}.

Definition scenario_report : report :=
  {| rep_master := scenario_master;
     rep_bucket_counts := bucket_counts scenario_clean;
     rep_kpi := kpi_summary scenario_clean;
     rep_insights := scenario_insights;
     rep_perf_by_borough := perf_by_borough scenario_clean;
     rep_radar := map (trace_of scenario_master) scenario_master |}.

(** The row of R1 in the share table: no incident of the scenario is in the
    bucket "Poor (8-10min)", and the table has no cell for it. *)
Definition scenario_shares_R1 : list (bucket * float) :=
  [(Excellent, Some 50); (Good, Some 50); (Critical, Some 0)].

Definition scenario_percentiles_R1 : Percentile.row :=
  percentile_row "R1" scenario_group_R1.

Definition scenario_minutes_R1 : Percentile.row :=
  {| Percentile.borough := "R1";
     Percentile.p25 := Some (21 # 5);
     Percentile.p50_median := Some 5;
     Percentile.p75 := Some (29 # 5);
     Percentile.p90 := Some (63 # 10);
     Percentile.p95 := Some (13 # 2) |}.

(** Boolean comparisons of rationals as propositions. *)
Ltac qbool :=
  repeat match goal with
  | H : Qle_bool _ _ = true |- _ => apply Qle_bool_iff in H
  | H : Qle_bool ?a ?b = false |- _ =>
      assert (~ a <= b) by (rewrite <- Qle_bool_iff, H; discriminate); clear H
  end.

(** * Properties *)

(** ** Cleaning *)

Lemma coerce_row_ok (r : Raw.row) : coerce_row r = Ok (coerced r).
Proof.
  unfold coerce_row, coerced.
  destruct (Raw.incident_response_seconds_qy r);
    destruct (Raw.dispatch_response_seconds_qy r); reflexivity.
Qed.

Lemma working_dataset_ok (raw : list Raw.row) :
  working_dataset raw = Ok (map coerced raw).
Proof.
  unfold working_dataset.
  induction raw as [|r raw IH]; simpl.
  - reflexivity.
  - rewrite coerce_row_ok, IH. reflexivity.
Qed.

Lemma dropna_coerced (raw : list Raw.row) :
  dropna (map coerced raw) = map coerced (filter survives raw).
Proof.
  unfold dropna.
  induction raw as [|r raw IH]; simpl.
  - reflexivity.
  - unfold survives at 1. simpl.
    destruct (notna (to_float (Raw.dispatch_response_seconds_qy r))
              && notna (Raw.borough r)); simpl; rewrite IH; reflexivity.
Qed.

Lemma clean_dataset_ok (raw : list Raw.row) :
  clean_dataset raw = Ok (map coerced (filter survives raw)).
Proof.
  unfold clean_dataset. rewrite working_dataset_ok. simpl.
  rewrite dropna_coerced. reflexivity.
Qed.

Lemma filter_idem {A : Type} (f : A -> bool) (l : list A) :
  filter f (filter f l) = filter f l.
Proof.
  induction l as [|a l IH]; simpl.
  - reflexivity.
  - destruct (f a) eqn:E; simpl; [rewrite E, IH|]; auto.
Qed.

Lemma clean_dataset_inv (raw : list Raw.row) (clean : list Incident.row) :
  clean_dataset raw = Ok clean ->
  clean = map coerced (filter survives raw).
Proof.
  rewrite clean_dataset_ok. intros H. inversion H. reflexivity.
Qed.

(** Every row of the cleaned table has a borough and a dispatch time. *)
Lemma clean_row_present (raw : list Raw.row) (clean : list Incident.row)
      (r : Incident.row) :
  clean_dataset raw = Ok clean -> In r clean ->
  exists b x, Incident.borough r = Some b
              /\ Incident.dispatch_response_seconds_qy r = Some x.
Proof.
  intros H Hin. apply clean_dataset_inv in H. subst clean.
  apply in_map_iff in Hin. destruct Hin as [r0 [<- Hin]].
  apply filter_In in Hin. destruct Hin as [_ Hs].
  unfold survives in Hs. apply andb_true_iff in Hs. destruct Hs as [Hd Hb].
  simpl.
  destruct (Raw.borough r0) as [b|]; [|discriminate].
  destruct (to_float (Raw.dispatch_response_seconds_qy r0)) as [x|]; [|discriminate].
  exists b, x. split; reflexivity.
Qed.

(** C7. Coercing the two response-time columns never raises: text that does
    not parse becomes a missing value; cleaning returns exactly the coerced
    records that have a borough and a dispatch time; and the whole run is the
    run on the table without the dropped records, so they reach no aggregate
    and cause no error. *)
Theorem coercion_recovers_locally (raw : list Raw.row) :
  (forall s, to_numeric errors_coerce (Malformed s) = Ok None)
  /\ clean_dataset raw = Ok (map coerced (filter survives raw))
  /\ run raw = run (filter survives raw).
Proof.
  split; [reflexivity|]. split; [apply clean_dataset_ok|].
  unfold run, main, sbind, lift.
  rewrite !clean_dataset_ok, filter_idem. reflexivity.
Qed.

(** ** Sorting and grouping *)

Lemma insert_sorted_perm {A : Type} (leb : A -> A -> bool) (a : A) (l : list A) :
  Permutation (insert_sorted leb a l) (a :: l).
Proof.
  induction l as [|b l IH]; simpl.
  - apply Permutation_refl.
  - destruct (leb a b).
    + apply Permutation_refl.
    + eapply perm_trans; [apply perm_skip, IH | apply perm_swap].
Qed.

Lemma sort_by_perm {A : Type} (leb : A -> A -> bool) (l : list A) :
  Permutation (sort_by leb l) l.
Proof.
  induction l as [|a l IH]; simpl.
  - apply perm_nil.
  - eapply perm_trans; [apply insert_sorted_perm | apply perm_skip, IH].
Qed.

Lemma sort_by_length {A : Type} (leb : A -> A -> bool) (l : list A) :
  List.length (sort_by leb l) = List.length l.
Proof. apply Permutation_length, sort_by_perm. Qed.

Lemma sort_by_In {A : Type} (leb : A -> A -> bool) (l : list A) (a : A) :
  In a (sort_by leb l) <-> In a l.
Proof.
  split; apply Permutation_in;
    [apply sort_by_perm | apply Permutation_sym, sort_by_perm].
Qed.

Lemma keys_of_In (ds : list Incident.row) (k : string) :
  In k (keys_of ds) <-> exists r, In r ds /\ Incident.borough r = Some k.
Proof.
  induction ds as [|r ds IH]; simpl.
  - split; [tauto | intros [r [[] _]]].
  - destruct (Incident.borough r) as [b|] eqn:E; simpl; rewrite IH; split.
    + intros [->|[r' [Hin Hb]]]; [exists r; auto | exists r'; auto].
    + intros [r' [[<-|Hin] Hb]];
        [left; congruence | right; exists r'; auto].
    + intros [r' [Hin Hb]]. exists r'; auto.
    + intros [r' [[<-|Hin] Hb]]; [congruence | exists r'; auto].
Qed.

Lemma group_keys_In (ds : list Incident.row) (k : string) :
  In k (group_keys ds) <-> exists r, In r ds /\ Incident.borough r = Some k.
Proof.
  unfold group_keys. rewrite sort_by_In, nodup_In. apply keys_of_In.
Qed.

Lemma group_keys_NoDup (ds : list Incident.row) : NoDup (group_keys ds).
Proof.
  unfold group_keys.
  eapply Permutation_NoDup; [apply Permutation_sym, sort_by_perm|].
  apply NoDup_nodup.
Qed.

(** A group is never empty. *)
Lemma group_nonempty (ds : list Incident.row) (k : string) :
  In k (group_keys ds) -> filter (in_group k) ds <> [].
Proof.
  intros Hk. apply group_keys_In in Hk. destruct Hk as [r [Hin Hb]].
  assert (Hr : In r (filter (in_group k) ds)).
  { apply filter_In. split; [assumption|].
    unfold in_group. rewrite Hb. apply String.eqb_refl. }
  intros E. rewrite E in Hr. exact Hr.
Qed.


(** ** The master table has one row per group *)

Lemma filter_key_unique (M : string -> Metrics.row) (keys : list string)
      (k : string) :
  (forall k', Metrics.borough (M k') = k') ->
  NoDup keys -> In k keys ->
  filter (fun m => String.eqb (Metrics.borough m) k) (map M keys) = [M k].
Proof.
  intros HM Hnd. induction Hnd as [|a keys Hnot Hnd IH]; intros Hin.
  - destruct Hin.
  - simpl. rewrite HM. destruct (String.eqb a k) eqn:E.
    + apply String.eqb_eq in E. subst a. f_equal.
      clear IH Hin Hnd. induction keys as [|b keys IH]; simpl.
      * reflexivity.
      * rewrite HM. destruct (String.eqb b k) eqn:E.
        -- apply String.eqb_eq in E. subst b. exfalso. apply Hnot. left. reflexivity.
        -- apply IH. intros H. apply Hnot. right. exact H.
    + apply IH. destruct Hin as [->|Hin]; [|assumption].
      rewrite String.eqb_refl in E. discriminate.
Qed.

Lemma merge_same_keys (S : string -> Stats.row) (M : string -> Metrics.row)
      (keys left : list string) :
  (forall k, Stats.borough (S k) = k) ->
  (forall k, Metrics.borough (M k) = k) ->
  NoDup keys -> incl left keys ->
  merge (map S left) (map M keys) = map (fun k => join (S k) (M k)) left.
Proof.
  intros HS HM Hnd. unfold merge.
  induction left as [|k left IH]; intros Hincl; simpl.
  - reflexivity.
  - rewrite HS, (filter_key_unique M keys k HM Hnd).
    + simpl. f_equal. apply IH. intros x Hx. apply Hincl. right. exact Hx.
    + apply Hincl. left. reflexivity.
Qed.

Lemma master_data_groups (ds : list Incident.row) :
  master_data ds
  = map (fun k => master_row k (filter (in_group k) ds)) (group_keys ds).
Proof.
  unfold master_data, borough_stats, performance_metrics, groupby, master_row.
  rewrite !map_map. simpl.
  apply (merge_same_keys
           (fun k => stats_row k (filter (in_group k) ds))
           (fun k => metrics_row k (filter (in_group k) ds)));
    try reflexivity.
  - apply group_keys_NoDup.
  - apply incl_refl.
Qed.

Lemma master_data_row (ds : list Incident.row) (row : Master.row) :
  In row (master_data ds) <->
  exists k, In k (group_keys ds)
            /\ row = master_row k (filter (in_group k) ds).
Proof.
  rewrite master_data_groups, in_map_iff.
  split; intros [k [H1 H2]]; exists k; split; auto.
Qed.

(** ** Rounding keeps the order *)

Lemma rint_mono (a b : Q) : a <= b -> (rint a <= rint b)%Z.
Proof.
  intros Hab. unfold rint.
  pose proof (Qfloor_resp_le a b Hab) as Hf.
  pose proof (Qfloor_le a) as Ha1. pose proof (Qlt_floor a) as Ha2.
  pose proof (Qfloor_le b) as Hb1. pose proof (Qlt_floor b) as Hb2.
  destruct (Z.eq_dec (Qfloor a) (Qfloor b)) as [E|E].
  - rewrite E in *. set (f := Qfloor b) in *.
    destruct (Qcompare_spec (a - inject_Z f) (1 # 2)) as [Ca|Ca|Ca];
      destruct (Qcompare_spec (b - inject_Z f) (1 # 2)) as [Cb|Cb|Cb];
      destruct (Z.even f); try lia; exfalso; lra.
  - assert (Hlt : (Qfloor a + 1 <= Qfloor b)%Z) by lia.
    destruct (Qcompare (a - inject_Z (Qfloor a)) (1 # 2));
      destruct (Qcompare (b - inject_Z (Qfloor b)) (1 # 2));
      destruct (Z.even (Qfloor a)); destruct (Z.even (Qfloor b)); lia.
Qed.

Lemma pow10_pos (n : nat) : 0 < pow10 n.
Proof.
  unfold pow10. change 0 with (inject_Z 0). rewrite <- Zlt_Qlt.
  apply Z.pow_pos_nonneg; lia.
Qed.

Lemma round_dec_mono (n : nat) (a b : Q) :
  a <= b -> round_dec n a <= round_dec n b.
Proof.
  intros Hab. unfold round_dec. rewrite !Qred_correct.
  pose proof (pow10_pos n) as Hp.
  apply Qmult_le_compat_r.
  - rewrite <- Zle_Qle. apply rint_mono.
    apply Qmult_le_compat_r; [assumption | apply Qlt_le_weak; assumption].
  - apply Qinv_le_0_compat, Qlt_le_weak. assumption.
Qed.

(** ** Compliance rates *)

Lemma fle_trans_scalar (v : float) (c d : Q) :
  c <= d -> fle v (Some c) = true -> fle v (Some d) = true.
Proof.
  intros Hcd. destruct v as [x|]; simpl; [|discriminate].
  rewrite !Qle_bool_iff. intros H. lra.
Qed.

Lemma bool_sum_le_scalar_mono (c d : Q) (s : list float) :
  c <= d ->
  (bool_sum (le_scalar c s) <= bool_sum (le_scalar d s))%nat.
Proof.
  intros Hcd. unfold bool_sum, le_scalar.
  induction s as [|v s IH]; simpl.
  - lia.
  - destruct (fle v (Some c)) eqn:E.
    + rewrite (fle_trans_scalar v c d Hcd E). simpl. lia.
    + destruct (fle v (Some d)); simpl; lia.
Qed.

Lemma bool_mean_nonempty (bs : list bool) :
  bs <> [] ->
  bool_mean bs
  = Some (Qred (inject_Z (Z.of_nat (bool_sum bs))
                / inject_Z (Z.of_nat (List.length bs)))).
Proof. destruct bs; [contradiction | reflexivity]. Qed.

Lemma map_nonempty {A B : Type} (f : A -> B) (l : list A) :
  l <> [] -> map f l <> [].
Proof. destruct l; [contradiction | discriminate]. Qed.

Lemma rate_mono (c d : Q) (g : list Incident.row) :
  c <= d -> g <> [] ->
  exists a b, rate c g = Some a /\ rate d g = Some b /\ a <= b.
Proof.
  intros Hcd Hg. unfold rate.
  pose proof (bool_sum_le_scalar_mono c d (dispatch_col g) Hcd) as Hs.
  rewrite !bool_mean_nonempty
    by (unfold le_scalar, dispatch_col; apply map_nonempty, map_nonempty, Hg).
  unfold fmul, fround.
  eexists. eexists. split; [reflexivity|]. split; [reflexivity|].
  apply round_dec_mono. rewrite !Qred_correct.
  apply Qmult_le_compat_r; [|lra].
  unfold le_scalar at 2 4. rewrite !length_map.
  apply Qmult_le_compat_r.
  - rewrite <- Zle_Qle. apply inj_le. exact Hs.
  - apply Qinv_le_0_compat. change 0 with (inject_Z 0). rewrite <- Zle_Qle. lia.
Qed.

(** C3. In every row of the master table the 5-minute compliance rate is a
    number no greater than the 8-minute compliance rate. *)
Theorem meets_5min_le_meets_8min (ds : list Incident.row) (row : Master.row) :
  In row (master_data ds) ->
  exists a b, Master.meets_5min row = Some a
              /\ Master.meets_8min row = Some b
              /\ a <= b.
Proof.
  intros Hin. apply master_data_row in Hin. destruct Hin as [k [Hk ->]].
  apply (rate_mono 300 480 (filter (in_group k) ds)).
  - lra.
  - apply group_nonempty. assumption.
Qed.

(** ** Buckets *)

Lemma perf_bucket_value (r : Incident.row) (x : Q) :
  Incident.dispatch_response_seconds_qy r = Some x ->
  perf_bucket r
  = if negb (Qle_bool x 0) && Qle_bool x 300 then Some Excellent
    else if negb (Qle_bool x 300) && Qle_bool x 480 then Some Good
    else if negb (Qle_bool x 480) && Qle_bool x 600 then Some Poor
    else if negb (Qle_bool x 600) then Some Critical
    else None.
Proof.
  intros Hx. unfold perf_bucket. rewrite Hx. unfold cut, bins, categories.
  cbn [cut_value edge_ltb edge_geb]. rewrite andb_true_r. reflexivity.
Qed.

(** A positive dispatch time falls in a bucket; zero and negative times fall
    in none. *)
Lemma perf_bucket_defined (r : Incident.row) (x : Q) :
  Incident.dispatch_response_seconds_qy r = Some x ->
  (notna (perf_bucket r) = true <-> 0 < x).
Proof.
  intros Hx. rewrite (perf_bucket_value r x Hx).
  destruct (Qle_bool x 0) eqn:E0; destruct (Qle_bool x 300) eqn:E3;
    destruct (Qle_bool x 480) eqn:E4; destruct (Qle_bool x 600) eqn:E6;
    simpl; qbool; split; intros; try reflexivity; try discriminate; lra.
Qed.


Lemma incidents_total_perm (s t : list (bucket * nat)) :
  Permutation s t -> incidents_total s = incidents_total t.
Proof.
  unfold incidents_total.
  induction 1; simpl; try lia.
Qed.

(** Each category has its row in the count table, with the number of rows of
    the data set that carry it. *)
Lemma bucket_counts_entry (ds : list Incident.row) (b : bucket) :
  In (b, count_bucket b ds) (bucket_counts ds).
Proof.
  unfold bucket_counts. apply sort_by_In.
  apply (in_map (fun b => (b, count_bucket b ds))).
  destruct b; simpl; auto.
Qed.

(** The counts of the table add up to the rows that have a bucket. *)
Lemma bucket_counts_total (ds : list Incident.row) :
  incidents_total (bucket_counts ds) = List.length (tabulated ds).
Proof.
  unfold bucket_counts.
  rewrite (incidents_total_perm _ _ (sort_by_perm _ _)).
  unfold incidents_total, categories, count_bucket, tabulated, has_bucket.
  simpl. induction ds as [|r ds IH]; simpl.
  - reflexivity.
  - destruct (perf_bucket r) as [[]|]; simpl in *; lia.
Qed.

(** On a table of positive dispatch times every row has a bucket and the
    counts add up to the number of rows. *)
Lemma bucket_counts_total_positive (ds : list Incident.row) :
  (forall r, In r ds ->
     fgt (Incident.dispatch_response_seconds_qy r) (Some 0) = true) ->
  incidents_total (bucket_counts ds) = List.length ds.
Proof.
  intros Hpos. rewrite bucket_counts_total. unfold tabulated.
  induction ds as [|r ds IH]; simpl.
  - reflexivity.
  - pose proof (Hpos r (or_introl eq_refl)) as Hr.
    destruct (Incident.dispatch_response_seconds_qy r) as [x|] eqn:Hx;
      [|discriminate].
    assert (Hb : notna (perf_bucket r) = true).
    { apply (perf_bucket_defined r x Hx).
      unfold fgt, flt in Hr. destruct (Qle_bool x 0) eqn:E; [discriminate|].
      qbool. lra. }
    rewrite Hb. simpl. f_equal. apply IH.
    intros r' Hr'. apply Hpos. right. exact Hr'.
Qed.







Lemma has_bucket_iff (b : bucket) (r : Incident.row) :
  has_bucket b r = true <-> perf_bucket r = Some b.
Proof.
  unfold has_bucket. destruct (perf_bucket r) as [b'|].
  - destruct b', b; simpl; split; intros H; try discriminate; reflexivity.
  - split; discriminate.
Qed.

Lemma filter_nonempty_iff {A : Type} (p : A -> bool) (l : list A) :
  List.length (filter p l) <> 0%nat <-> exists x, In x l /\ p x = true.
Proof.
  split.
  - intros H. destruct (filter p l) as [|x t] eqn:E; [contradiction|].
    exists x. apply filter_In. rewrite E. left. reflexivity.
  - intros [x Hx] E. apply filter_In in Hx.
    apply length_zero_iff_nil in E. rewrite E in Hx. exact Hx.
Qed.

Lemma observed_In (ds : list Incident.row) (b : bucket) :
  In b (observed ds)
  <-> exists r, In r ds
                /\ notna (Incident.borough r) = true
                /\ perf_bucket r = Some b.
Proof.
  unfold observed. rewrite filter_In, negb_true_iff, Nat.eqb_neq.
  unfold count_bucket. rewrite filter_nonempty_iff. unfold crossed, tabulated.
  split.
  - intros [_ [r [Hr Hb]]]. apply filter_In in Hr. destruct Hr as [Hr Hbor].
    apply filter_In in Hr. destruct Hr as [Hr _].
    exists r. split; [exact Hr|]. split; [exact Hbor|].
    apply has_bucket_iff. exact Hb.
  - intros [r [Hr [Hbor Hb]]]. split; [destruct b; simpl; auto|].
    exists r. split; [|apply has_bucket_iff; exact Hb].
    apply filter_In. split; [|exact Hbor].
    apply filter_In. split; [exact Hr|]. rewrite Hb. reflexivity.
Qed.



(** C1, at a dispatch time of zero: the record survives cleaning and the
    5-minute test counts it, yet it has no bucket, and the count table adds up
    to 0 for a table of one surviving record. *)
Theorem zero_dispatch_has_no_bucket :
  let raw := [raw_row (Some "BRONX"%string) (Numeric 0) (Numeric 0)] in
  exists r,
    clean_dataset raw = Ok [r]
    /\ Incident.dispatch_response_seconds_qy r = Some 0
    /\ fle (Incident.dispatch_response_seconds_qy r) (Some 300) = true
    /\ perf_bucket r = None
    /\ incidents_total (bucket_counts [r]) = 0%nat
    /\ List.length [r] = 1%nat
    /\ perf_by_borough [r] = [].
Proof.
  eexists. repeat split; reflexivity.
Qed.

(** ** Least and greatest entry of a column *)

Lemma present_In (s : list float) (a : Q) : In a (present s) <-> In (Some a) s.
Proof.
  induction s as [|[q|] s IH]; simpl.
  - tauto.
  - rewrite IH. split; intros [H|H]; auto; left; congruence.
  - rewrite IH. split; [auto | intros [H|H]; [discriminate | assumption]].
Qed.

Lemma qmin_cases (a b : Q) :
  (qmin a b = a \/ qmin a b = b) /\ qmin a b <= a /\ qmin a b <= b.
Proof.
  unfold qmin. destruct (Qle_bool a b) eqn:E; qbool;
    (split; [auto | split; lra]).
Qed.

Lemma qmax_cases (a b : Q) :
  (qmax a b = a \/ qmax a b = b) /\ a <= qmax a b /\ b <= qmax a b.
Proof.
  unfold qmax. destruct (Qle_bool a b) eqn:E; qbool;
    (split; [auto | split; lra]).
Qed.

Lemma fold_qmin_spec (t : list Q) (q : Q) :
  In (fold_left qmin t q) (q :: t)
  /\ forall x, In x (q :: t) -> fold_left qmin t q <= x.
Proof.
  revert q. induction t as [|a t IH]; intros q; simpl.
  - split; [auto | intros x [<-|[]]; lra].
  - destruct (IH (qmin q a)) as [Hin Hle].
    destruct (qmin_cases q a) as [Hc [Hq Ha]].
    split.
    + simpl in Hin. destruct Hin as [Hin|Hin]; [|auto].
      rewrite <- Hin. destruct Hc as [-> | ->]; auto.
    + intros x [<-|[<-|Hx]].
      * eapply Qle_trans; [apply Hle; left; reflexivity | exact Hq].
      * eapply Qle_trans; [apply Hle; left; reflexivity | exact Ha].
      * apply Hle. right. exact Hx.
Qed.

Lemma fold_qmax_spec (t : list Q) (q : Q) :
  In (fold_left qmax t q) (q :: t)
  /\ forall x, In x (q :: t) -> x <= fold_left qmax t q.
Proof.
  revert q. induction t as [|a t IH]; intros q; simpl.
  - split; [auto | intros x [<-|[]]; lra].
  - destruct (IH (qmax q a)) as [Hin Hle].
    destruct (qmax_cases q a) as [Hc [Hq Ha]].
    split.
    + simpl in Hin. destruct Hin as [Hin|Hin]; [|auto].
      rewrite <- Hin. destruct Hc as [-> | ->]; auto.
    + intros x [<-|[<-|Hx]].
      * eapply Qle_trans; [exact Hq | apply Hle; left; reflexivity].
      * eapply Qle_trans; [exact Ha | apply Hle; left; reflexivity].
      * apply Hle. right. exact Hx.
Qed.

Lemma series_min_spec (s : list float) (a : Q) :
  In (Some a) s ->
  exists lo, series_min s = Some lo
             /\ In (Some lo) s
             /\ forall x, In (Some x) s -> lo <= x.
Proof.
  intros Ha. apply present_In in Ha. unfold series_min.
  destruct (present s) as [|q t] eqn:E; [destruct Ha|].
  destruct (fold_qmin_spec t q) as [Hin Hle].
  exists (fold_left qmin t q). split; [reflexivity|]. split.
  - apply present_In. rewrite E. exact Hin.
  - intros x Hx. apply Hle. rewrite <- E. apply present_In. exact Hx.
Qed.

Lemma series_max_spec (s : list float) (a : Q) :
  In (Some a) s ->
  exists hi, series_max s = Some hi
             /\ In (Some hi) s
             /\ forall x, In (Some x) s -> x <= hi.
Proof.
  intros Ha. apply present_In in Ha. unfold series_max.
  destruct (present s) as [|q t] eqn:E; [destruct Ha|].
  destruct (fold_qmax_spec t q) as [Hin Hle].
  exists (fold_left qmax t q). split; [reflexivity|]. split.
  - apply present_In. rewrite E. exact Hin.
  - intros x Hx. apply Hle. rewrite <- E. apply present_In. exact Hx.
Qed.

(** ** Speed score *)

Lemma Qred_eq (p q : Q) : p == q -> Qred q = q -> Qred p = q.
Proof. intros H E. rewrite <- E. apply Qred_complete. exact H. Qed.

(** The score as a formula, when the column has a least and a greatest entry
    that differ. *)
Lemma speed_score_value (master : list Master.row) (row : Master.row)
      (v lo hi : Q) :
  Master.avg_dispatch_sec row = Some v ->
  series_min (map Master.avg_dispatch_sec master) = Some lo ->
  series_max (map Master.avg_dispatch_sec master) = Some hi ->
  lo < hi ->
  speed_score master row = Some (Qred (100 - (v - lo) / (hi - lo) * 100)).
Proof.
  intros Hv Hlo Hhi Hlt. unfold speed_score. rewrite Hv, Hlo, Hhi.
  unfold fsub at 2 3. unfold fdiv.
  destruct (Qeq_bool (Qred (hi - lo)) 0) eqn:E.
  - apply Qeq_bool_iff in E. rewrite Qred_correct in E. lra.
  - unfold fmul, fsub. f_equal. apply Qred_complete.
    rewrite !Qred_correct. reflexivity.
Qed.

Lemma avg_column_In (master : list Master.row) (x : Q) :
  In (Some x) (map Master.avg_dispatch_sec master) <->
  exists r, In r master /\ Master.avg_dispatch_sec r = Some x.
Proof.
  rewrite in_map_iff. split; intros [r [H1 H2]]; exists r; auto.
Qed.

(** Two rows with different means separate the least mean from the
    greatest. *)
Lemma distinct_means_spread (master : list Master.row) :
  varies (map Master.avg_dispatch_sec master) ->
  exists lo hi,
    series_min (map Master.avg_dispatch_sec master) = Some lo
    /\ series_max (map Master.avg_dispatch_sec master) = Some hi
    /\ lo < hi
    /\ In (Some lo) (map Master.avg_dispatch_sec master)
    /\ In (Some hi) (map Master.avg_dispatch_sec master)
    /\ forall x, In (Some x) (map Master.avg_dispatch_sec master) ->
                 lo <= x <= hi.
Proof.
  intros [a [b [Ha [Hb Hab]]]].
  apply present_In in Ha. apply present_In in Hb.
  destruct (series_min_spec _ a Ha) as [lo [Hlo [Hlin Hlle]]].
  destruct (series_max_spec _ a Ha) as [hi [Hhi [Hhin Hhle]]].
  exists lo, hi. repeat split; auto.
  pose proof (Hlle a Ha). pose proof (Hlle b Hb).
  pose proof (Hhle a Ha). pose proof (Hhle b Hb).
  destruct (Qlt_le_dec lo hi) as [L|L]; [exact L|].
  exfalso. apply Hab. lra.
Qed.

(** C9, as amended.  When the master table holds more than one distinct
    mean dispatch time, a mean being held there to two decimals, the speed
    score of a row with the least mean is 100 and that of a row with the
    greatest mean is 0. *)
Theorem speed_score_extremes (master : list Master.row) (row : Master.row) :
  varies (map Master.avg_dispatch_sec master) ->
  In row master ->
  (fastest master row -> speed_score master row = Some 100)
  /\ (slowest master row -> speed_score master row = Some 0).
Proof.
  intros Hnc Hin.
  destruct (distinct_means_spread master Hnc)
    as [lo [hi [Hlo [Hhi [Hlt [Hlin [Hhin Hbetween]]]]]]].
  split; intros Hext.
  - pose proof (Hext row Hin) as Hself.
    destruct (Master.avg_dispatch_sec row) as [v|] eqn:Hv; [|discriminate].
    assert (Hvlo : v == lo).
    { apply Qle_antisym.
      - apply avg_column_In in Hlin. destruct Hlin as [r' [Hr' Hr'v]].
        pose proof (Hext r' Hr') as H. rewrite Hv, Hr'v in H.
        apply Qle_bool_iff in H. exact H.
      - apply Hbetween. apply avg_column_In. exists row. auto. }
    rewrite (speed_score_value master row v lo hi Hv Hlo Hhi Hlt).
    f_equal. apply Qred_eq; [|reflexivity].
    setoid_replace (v - lo) with 0 by lra.
    unfold Qdiv. ring.
  - pose proof (Hext row Hin) as Hself.
    destruct (Master.avg_dispatch_sec row) as [v|] eqn:Hv; [|discriminate].
    assert (Hvhi : v == hi).
    { apply Qle_antisym.
      - apply Hbetween. apply avg_column_In. exists row. auto.
      - apply avg_column_In in Hhin. destruct Hhin as [r' [Hr' Hr'v]].
        pose proof (Hext r' Hr') as H. rewrite Hv, Hr'v in H.
        apply Qle_bool_iff in H. exact H. }
    rewrite (speed_score_value master row v lo hi Hv Hlo Hhi Hlt).
    f_equal. apply Qred_eq; [|reflexivity].
    setoid_replace (v - lo) with (hi - lo) by lra.
    field. lra.
Qed.

(** The means are those of the master table, which holds them to two
    decimals: means that differ only beyond that are one mean there. *)
Remark means_merge_under_rounding :
  map Master.avg_dispatch_sec (master_data (map coerced close_means_raw))
  = [Some 100; Some 100].
Proof. vm_compute. reflexivity. Qed.

(** C9, as first stated, fails: two boroughs with the distinct mean dispatch
    times 100 and 100.001 have one mean in the master table, and the speed
    score of both is not a number, neither 100 nor 0. *)
Lemma speed_score_extremes_counterexample :
  clean_dataset close_means_raw = Ok close_means_clean
  /\ series_mean (dispatch_col (filter (in_group "R1") close_means_clean))
     = Some 100
  /\ series_mean (dispatch_col (filter (in_group "R2") close_means_clean))
     = Some (100001 # 1000)
  /\ ~ 100 == 100001 # 1000
  /\ close_means_master = [close_means_R1; close_means_R2]
  /\ speed_score close_means_master close_means_R1 = None
  /\ speed_score close_means_master close_means_R2 = None.
Proof.
  split; [reflexivity|]. split; [vm_compute; reflexivity|].
  split; [vm_compute; reflexivity|].
  split; [intros E; vm_compute in E; discriminate|].
  split; [vm_compute; reflexivity|].
  split; vm_compute; reflexivity.
Qed.

(** Away from the degenerate case the score is a number between 0 and 100. *)
Lemma speed_score_in_range (master : list Master.row) (row : Master.row) :
  varies (map Master.avg_dispatch_sec master) ->
  In row master ->
  notna (Master.avg_dispatch_sec row) = true ->
  score_in_range (speed_score master row).
Proof.
  intros Hnc Hin Hv.
  destruct (distinct_means_spread master Hnc)
    as [lo [hi [Hlo [Hhi [Hlt [_ [_ Hbetween]]]]]]].
  destruct (Master.avg_dispatch_sec row) as [v|] eqn:E; [|discriminate].
  assert (Hb : lo <= v <= hi).
  { apply Hbetween. apply avg_column_In. exists row. auto. }
  unfold score_in_range.
  rewrite (speed_score_value master row v lo hi E Hlo Hhi Hlt).
  eexists. split; [reflexivity|]. rewrite Qred_correct.
  assert (H0 : 0 <= (v - lo) / (hi - lo)) by (apply Qle_shift_div_l; lra).
  assert (H1 : (v - lo) / (hi - lo) <= 1) by (apply Qle_shift_div_r; lra).
  generalize dependent ((v - lo) / (hi - lo)). intros t H0 H1. lra.
Qed.

(** When all rows share one mean the divisor is zero and the score is not a
    number. *)
Lemma speed_score_degenerate (master : list Master.row) (row : Master.row) :
  all_equal (map Master.avg_dispatch_sec master) ->
  speed_score master row = None.
Proof.
  intros Hc. unfold speed_score.
  set (avg := map Master.avg_dispatch_sec master) in *.
  destruct (present avg) as [|q t] eqn:E.
  - unfold series_min, series_max. rewrite E.
    destruct (Master.avg_dispatch_sec row); reflexivity.
  - assert (Hq : In (Some q) avg) by (apply present_In; rewrite E; left; reflexivity).
    destruct (series_min_spec avg q Hq) as [lo [Hlo [Hlin _]]].
    destruct (series_max_spec avg q Hq) as [hi [Hhi [Hhin _]]].
    rewrite Hlo, Hhi.
    assert (Heq : hi == lo) by (apply Hc; apply present_In; assumption).
    unfold fsub at 3. unfold fdiv.
    assert (Hz : Qeq_bool (Qred (hi - lo)) 0 = true).
    { apply Qeq_bool_iff. rewrite Qred_correct. lra. }
    rewrite Hz.
    destruct (fsub (Master.avg_dispatch_sec row) (Some lo)); reflexivity.
Qed.

(** C2, at two boroughs with the same mean dispatch time: the divisor
    [max - min] is zero, nothing guards it, and the speed score of every row
    is not a number, while the reliability score in the same loop, which tests
    its divisor, is 100. *)
Theorem speed_score_undefined_on_equal_means :
  let raw := [raw_row (Some "BRONX"%string) (Numeric 240) Missing;
              raw_row (Some "QUEENS"%string) (Numeric 240) Missing] in
  let clean := map coerced raw in
  clean_dataset raw = Ok clean
  /\ List.length (master_data clean) = 2%nat
  /\ forall row, In row (master_data clean) ->
       speed_score (master_data clean) row = None
       /\ ~ score_in_range (speed_score (master_data clean) row)
       /\ reliability_score (master_data clean) row = Some 100.
Proof.
  intros raw clean. split; [reflexivity|]. split; [reflexivity|].
  intros row Hin.
  assert (Hs : speed_score (master_data clean) row = None).
  { apply speed_score_degenerate. intros a b Ha Hb.
    vm_compute in Ha, Hb.
    destruct Ha as [<-|[<-|[]]]; destruct Hb as [<-|[<-|[]]]; reflexivity. }
  split; [exact Hs|]. split.
  - intros [q [Hq _]]. rewrite Hs in Hq. discriminate.
  - vm_compute in Hin. destruct Hin as [<-|[<-|[]]]; vm_compute; reflexivity.
Qed.

(** ** Reliability score *)

Lemma bool_sum_all_false (bs : list bool) :
  (forall b, In b bs -> b = false) -> bool_sum bs = 0%nat.
Proof.
  unfold bool_sum. induction bs as [|b bs IH]; intros H; simpl.
  - reflexivity.
  - rewrite (H b (or_introl eq_refl)). apply IH.
    intros b' Hb'. apply H. right. exact Hb'.
Qed.

Lemma series_max_zeros (s : list float) :
  (forall v, In v s -> v = Some 0) ->
  series_max s = None \/ series_max s = Some 0.
Proof.
  intros H. unfold series_max.
  assert (Hp : forall q, In q (present s) -> q = 0).
  { intros q Hq. apply present_In in Hq. apply H in Hq. congruence. }
  destruct (present s) as [|q t]; [left; reflexivity|right].
  rewrite (Hp q (or_introl eq_refl)).
  assert (Ht : forall x, In x t -> x = 0) by (intros x Hx; apply Hp; right; exact Hx).
  clear Hp H. f_equal. induction t as [|a t IH]; simpl.
  - reflexivity.
  - rewrite (Ht a (or_introl eq_refl)). unfold qmax at 2. simpl.
    apply IH. intros x Hx. apply Ht. right. exact Hx.
Qed.

(** C8. When no surviving incident has a dispatch time above 600 seconds,
    the reliability score of every row of the master table is 100. *)
Theorem reliability_score_without_extreme_delays
        (raw : list Raw.row) (clean : list Incident.row) :
  clean_dataset raw = Ok clean ->
  (forall r, In r clean ->
     fgt (Incident.dispatch_response_seconds_qy r) (Some 600) = false) ->
  forall row, In row (master_data clean) ->
    reliability_score (master_data clean) row = Some 100.
Proof.
  intros _ Hno row _.
  assert (Hz : forall v, In v (map Master.extreme_delays (master_data clean)) ->
                         v = Some 0).
  { intros v Hv. apply in_map_iff in Hv. destruct Hv as [r' [<- Hr']].
    apply master_data_row in Hr'. destruct Hr' as [k [_ ->]].
    unfold master_row, join, metrics_row. cbn [Master.extreme_delays Metrics.extreme_delays].
    rewrite bool_sum_all_false; [reflexivity|].
    intros b Hb. unfold gt_scalar, dispatch_col in Hb. rewrite map_map in Hb.
    apply in_map_iff in Hb. destruct Hb as [r [<- Hr]].
    apply filter_In in Hr. apply Hno. apply Hr. }
  unfold reliability_score.
  destruct (series_max_zeros _ Hz) as [-> | ->]; reflexivity.
Qed.

(** ** Empty input *)

(** C6. When nothing survives cleaning the run stops with an exception at the
    search for the best borough, after the two title lines and before any
    table or chart is shown. *)
Theorem empty_incident_set_aborts (raw : list Raw.row) :
  clean_dataset raw = Ok [] ->
  exists e,
    run raw
    = ([Text "# NYC EMS RESPONSE TIME ANALYSIS";
        Text "*Comprehensive performance dashboard for emergency medical services*"],
       Raise e).
Proof.
  intros H. unfold run, main, sbind, lift. rewrite H.
  eexists. reflexivity.
Qed.

(** ** Statistics of the incident response time *)

Lemma nansum_present (s : list float) : nansum s = qsum (present s).
Proof.
  induction s as [|[q|] s IH]; simpl; try rewrite IH; reflexivity.
Qed.

Lemma series_count_present (s : list float) :
  series_count s = List.length (present s).
Proof.
  unfold series_count.
  induction s as [|[q|] s IH]; simpl; try rewrite IH; reflexivity.
Qed.

Lemma series_mean_present (s : list float) :
  series_mean s = mean_of (present s).
Proof.
  unfold series_mean, mean_of.
  rewrite series_count_present, nansum_present.
  destruct (present s); reflexivity.
Qed.

Lemma series_median_present (s : list float) :
  series_median s = median_of (present s).
Proof.
  unfold series_median, median_of. rewrite sort_by_length.
  destruct (present s); reflexivity.
Qed.

Lemma series_count_all_present (s : list float) :
  (forall v, In v s -> notna v = true) -> series_count s = List.length s.
Proof.
  unfold series_count. induction s as [|v s IH]; intros H; simpl.
  - reflexivity.
  - rewrite (H v (or_introl eq_refl)). simpl. f_equal.
    apply IH. intros v' Hv'. apply H. right. exact Hv'.
Qed.

Lemma borough_stats_row (ds : list Incident.row) (row : Stats.row) :
  In row (borough_stats ds) <->
  exists k, In k (group_keys ds)
            /\ row = stats_row k (filter (in_group k) ds).
Proof.
  unfold borough_stats, groupby. rewrite map_map. simpl. rewrite in_map_iff.
  split; intros [k [H1 H2]]; exists k; split; auto.
Qed.

(** C10, at a record with a dispatch time of zero and an incident response
    time that does not convert: the record survives cleaning with that time
    missing, it is counted in its borough's calls, in the compliance rates and
    in the citywide number of calls, the mean of the incident response time of
    its borough is missing for want of a present value, and yet it is in
    neither bucket table. *)
Theorem unparsed_incident_time_at_zero_dispatch :
  clean_dataset zero_unparsed_raw = Ok [zero_unparsed]
  /\ Incident.incident_response_seconds_qy zero_unparsed = None
  /\ map Stats.total_calls (borough_stats [zero_unparsed]) = [1%Z]
  /\ map Stats.avg_incident_sec (borough_stats [zero_unparsed]) = [None]
  /\ map Stats.median_incident (borough_stats [zero_unparsed]) = [None]
  /\ map Master.meets_5min (master_data [zero_unparsed]) = [Some 100]
  /\ kpi_total_calls (kpi_summary [zero_unparsed]) = 1%nat
  /\ perf_bucket zero_unparsed = None
  /\ incidents_total (bucket_counts [zero_unparsed]) = 0%nat
  /\ perf_by_borough [zero_unparsed] = [].
Proof.
  repeat split; vm_compute; reflexivity.
Qed.

(** ** Moments of a column *)

Lemma qsum_nonneg (l : list Q) :
  (forall x, In x l -> 0 <= x) -> 0 <= qsum l.
Proof.
  unfold qsum. induction l as [|a l IH]; intros H; simpl.
  - lra.
  - pose proof (H a (or_introl eq_refl)).
    assert (0 <= fold_right Qplus 0 l) by (apply IH; intros; apply H; right; assumption).
    lra.
Qed.

Lemma qsum_ge_term (l : list Q) (t : Q) :
  (forall x, In x l -> 0 <= x) -> In t l -> t <= qsum l.
Proof.
  induction l as [|a l IH]; intros H Hin; [destruct Hin|].
  assert (Ha : 0 <= a) by (apply H; left; reflexivity).
  assert (Hl : 0 <= qsum l) by (apply qsum_nonneg; intros; apply H; right; assumption).
  change (qsum (a :: l)) with (a + qsum l).
  destruct Hin as [<-|Hin].
  - lra.
  - assert (t <= qsum l) by (apply IH; [intros; apply H; right|]; assumption).
    lra.
Qed.

Lemma qsum_zero (l : list Q) :
  (forall x, In x l -> x == 0) -> qsum l == 0.
Proof.
  induction l as [|a l IH]; intros H.
  - reflexivity.
  - change (qsum (a :: l)) with (a + qsum l).
    rewrite (H a (or_introl eq_refl)), IH; [lra|].
    intros; apply H; right; assumption.
Qed.

Lemma qsum_const (l : list Q) (c : Q) :
  (forall x, In x l -> x == c) ->
  qsum l == inject_Z (Z.of_nat (List.length l)) * c.
Proof.
  induction l as [|a l IH]; intros H.
  - simpl. unfold qsum. simpl. ring.
  - change (qsum (a :: l)) with (a + qsum l).
    simpl List.length. rewrite Nat2Z.inj_succ. unfold Z.succ.
    rewrite inject_Z_plus.
    assert (Ea : a == c) by (apply H; left; reflexivity).
    assert (El : qsum l == inject_Z (Z.of_nat (List.length l)) * c)
      by (apply IH; intros; apply H; right; assumption).
    rewrite Ea, El. ring.
Qed.

Lemma qmean_const (l : list Q) (c : Q) :
  l <> [] -> (forall x, In x l -> x == c) -> qmean l == c.
Proof.
  intros Hne H. unfold qmean. rewrite (qsum_const l c H).
  assert (Hn : ~ inject_Z (Z.of_nat (List.length l)) == 0).
  { destruct l as [|a l]; [contradiction|].
    simpl List.length. rewrite Nat2Z.inj_succ. unfold Z.succ.
    intros E. apply (proj1 (inject_Z_injective _ 0%Z)) in E. lia. }
  field. exact Hn.
Qed.

Lemma square_nonneg (x : Q) : 0 <= x * x.
Proof. nra. Qed.

Lemma ssqdm_nonneg (l : list Q) : 0 <= ssqdm l.
Proof.
  unfold ssqdm. apply qsum_nonneg. intros x Hx.
  apply in_map_iff in Hx. destruct Hx as [v [<- _]]. apply square_nonneg.
Qed.

Lemma ssqdm_constant (l : list Q) :
  (forall a b, In a l -> In b l -> a == b) -> ssqdm l == 0.
Proof.
  intros H. destruct l as [|c t].
  - reflexivity.
  - assert (Hm : qmean (c :: t) == c).
    { apply qmean_const; [discriminate|]. intros x Hx. apply H; [exact Hx|left; reflexivity]. }
    unfold ssqdm. apply qsum_zero. intros x Hx.
    apply in_map_iff in Hx. destruct Hx as [v [<- Hv]].
    rewrite Hm. rewrite (H v c Hv (or_introl eq_refl)). ring.
Qed.

Lemma ssqdm_nonconstant (l : list Q) :
  (exists a b, In a l /\ In b l /\ ~ a == b) -> 0 < ssqdm l.
Proof.
  intros [a [b [Ha [Hb Hab]]]].
  assert (Hv : exists v, In v l /\ ~ v == qmean l).
  { destruct (Qeq_dec a (qmean l)) as [E|E].
    - exists b. split; [exact Hb|]. intros E'. apply Hab. rewrite E, E'. reflexivity.
    - exists a. auto. }
  destruct Hv as [v [Hv Hne]].
  apply Qlt_le_trans with ((v - qmean l) * (v - qmean l)).
  - assert (~ v - qmean l == 0) by (intros E; apply Hne; lra).
    generalize dependent (v - qmean l). intros d Hd.
    destruct (Qlt_le_dec 0 d); [nra|].
    destruct (Qlt_le_dec d 0); [nra|]. exfalso. apply Hd. lra.
  - unfold ssqdm. apply qsum_ge_term.
    + intros x Hx. apply in_map_iff in Hx. destruct Hx as [w [<- _]].
      apply square_nonneg.
    + apply (in_map (fun v => (v - qmean l) * (v - qmean l))). exact Hv.
Qed.

Lemma map_fst_twice (l : list Q) : map fst (map twice l) = l.
Proof. rewrite map_map. simpl. apply map_id. Qed.

Lemma map_snd_twice (l : list Q) : map snd (map twice l) = l.
Proof. rewrite map_map. simpl. apply map_id. Qed.

Lemma covxy_twice (l : list Q) : covxy (map twice l) = ssqdm l.
Proof.
  unfold covxy, ssqdm. rewrite map_fst_twice, map_snd_twice, map_map.
  reflexivity.
Qed.

Lemma map_fst_flip (ps : list (Q * Q)) : map fst (map flip_pair ps) = map snd ps.
Proof. rewrite map_map. reflexivity. Qed.

Lemma map_snd_flip (ps : list (Q * Q)) : map snd (map flip_pair ps) = map fst ps.
Proof. rewrite map_map. reflexivity. Qed.

Lemma qsum_map_ext {A : Type} (f g : A -> Q) (l : list A) :
  (forall a, f a == g a) -> qsum (map f l) == qsum (map g l).
Proof.
  intros H. induction l as [|a l IH].
  - reflexivity.
  - simpl map. change (f a + qsum (map f l) == g a + qsum (map g l)).
    rewrite H, IH. reflexivity.
Qed.

Lemma covxy_flip (ps : list (Q * Q)) : covxy (map flip_pair ps) == covxy ps.
Proof.
  unfold covxy. rewrite map_fst_flip, map_snd_flip, map_map.
  apply qsum_map_ext. intros [a b]. simpl. ring.
Qed.

Lemma pairs_diag (x : list float) : pairs x x = map twice (present x).
Proof.
  induction x as [|[q|] x IH]; simpl; try rewrite IH; reflexivity.
Qed.

Lemma pairs_flip (x y : list float) : pairs y x = map flip_pair (pairs x y).
Proof.
  revert y. induction x as [|a x IH]; intros [|b y]; simpl; try reflexivity.
  destruct a, b; simpl; rewrite IH; reflexivity.
Qed.

Lemma pairs_fst_present (x y : list float) (a : Q) :
  In a (map fst (pairs x y)) -> In a (present x).
Proof.
  revert y. induction x as [|u x IH]; intros y; [intros []|].
  destruct y as [|v y]; [intros []|].
  simpl. destruct u as [p|]; [destruct v as [q|]|]; simpl; intros H.
  - destruct H as [H|H]; [left; exact H | right; eapply IH; exact H].
  - right. eapply IH. exact H.
  - eapply IH. exact H.
Qed.

(** ** Correlation matrix *)

Module CorrFacts.
Import Reals Qreals.
Import Corr.

Lemma pearson_pairs_nonempty (ps : list (Q * Q)) :
  ps <> [] ->
  pearson_pairs ps
  = if Req_dec_T (sqrt (Q2R (ssqdm (map fst ps) * ssqdm (map snd ps)))) 0%R
    then None
    else Some (Q2R (covxy ps)
               / sqrt (Q2R (ssqdm (map fst ps) * ssqdm (map snd ps))))%R.
Proof. destruct ps; [contradiction | reflexivity]. Qed.

Lemma pearson_pairs_flip (ps : list (Q * Q)) :
  pearson_pairs (map flip_pair ps) = pearson_pairs ps.
Proof.
  destruct ps as [|p ps]; [reflexivity|].
  rewrite !pearson_pairs_nonempty by discriminate.
  rewrite map_fst_flip, map_snd_flip.
  rewrite (Qeq_eqR _ _ (covxy_flip (p :: ps))).
  rewrite (Qeq_eqR _ _ (Qmult_comm (ssqdm (map snd (p :: ps)))
                                   (ssqdm (map fst (p :: ps))))).
  reflexivity.
Qed.

Lemma pearson_sym (x y : list float) : pearson x y = pearson y x.
Proof.
  unfold pearson. rewrite (pairs_flip x y), pearson_pairs_flip. reflexivity.
Qed.

Lemma pearson_diag (x : list float) :
  varies x -> pearson x x = Some 1%R.
Proof.
  intros Hnc. unfold pearson. rewrite pairs_diag.
  pose proof (ssqdm_nonconstant (present x) Hnc) as Hpos.
  rewrite pearson_pairs_nonempty.
  - rewrite map_fst_twice, map_snd_twice, covxy_twice, Q2R_mult.
    assert (HR : (0 < Q2R (ssqdm (present x)))%R).
    { rewrite <- RMicromega.Q2R_0. apply Qlt_Rlt. exact Hpos. }
    rewrite sqrt_square by (apply Rlt_le; exact HR).
    destruct (Req_dec_T (Q2R (ssqdm (present x))) 0) as [Z|Z].
    + exfalso. rewrite Z in HR. apply (Rlt_irrefl _ HR).
    + f_equal. field. exact Z.
  - destruct Hnc as [a [_ [Ha _]]]. apply map_nonempty.
    intros E. rewrite E in Ha. exact Ha.
Qed.

Lemma pearson_constant (x y : list float) :
  all_equal x -> pearson x y = None.
Proof.
  intros Hc. unfold pearson.
  assert (Hz : ssqdm (map fst (pairs x y)) == 0).
  { apply ssqdm_constant. intros a b Ha Hb.
    apply Hc; eapply pairs_fst_present; eassumption. }
  destruct (pairs x y) as [|p ps]; [reflexivity|].
  rewrite pearson_pairs_nonempty by discriminate.
  rewrite Q2R_mult, (Qeq_eqR _ _ Hz), RMicromega.Q2R_0, Rmult_0_l, sqrt_0.
  destruct (Req_dec_T 0 0) as [_|Z]; [reflexivity|].
  exfalso. apply Z. reflexivity.
Qed.

(** C5. The correlation matrix of the five master columns is symmetric; a
    diagonal entry is 1 when its column is not constant over the boroughs;
    and every entry in the row and in the column of a constant column is
    missing, not zero. *)
Theorem corr_matrix_shape (master : list Master.row) (a b : metric) :
  corr_matrix master a b = corr_matrix master b a
  /\ (varies (column master a) -> corr_matrix master a a = Some 1%R)
  /\ (all_equal (column master a) ->
      corr_matrix master a b = None /\ corr_matrix master b a = None).
Proof.
  unfold corr_matrix. split; [apply pearson_sym|]. split.
  - apply pearson_diag.
  - intros Hc. split.
    + apply pearson_constant. exact Hc.
    + rewrite pearson_sym. apply pearson_constant. exact Hc.
Qed.
Lemma corr_matrix_shape_witness :
  varies (column scenario_master Avg_dispatch_sec)
  /\ corr_matrix scenario_master Avg_dispatch_sec Avg_dispatch_sec = Some 1%R.
Proof.
  assert (H : varies (column scenario_master Avg_dispatch_sec)).
  { exists 300, 700. split; [simpl; auto|]. split; [simpl; auto|].
    intros E. vm_compute in E. discriminate. }
  split; [exact H|].
  apply (proj1 (proj2 (corr_matrix_shape scenario_master
                         Avg_dispatch_sec Total_calls))).
  exact H.
Defined.
End CorrFacts.

(** ** A run on a non-empty table completes *)

Lemma arg_best_found (better : Q -> Q -> bool) (s : list float) (i : nat)
      (best : option (nat * Q)) :
  best <> None \/ (exists v, In (Some v) s) ->
  exists j q,
    arg_best better s i best = Some (j, q)
    /\ (best = Some (j, q) \/ (i <= j < i + List.length s)%nat).
Proof.
  revert i best. induction s as [|[q|] t IH]; intros i best H.
  - destruct H as [H|[v []]].
    destruct best as [[j q]|]; [|contradiction].
    exists j, q. split; [reflexivity | left; reflexivity].
  - simpl. destruct best as [[j0 b]|].
    + destruct (better q b).
      * destruct (IH (S i) (Some (i, q))) as [j [q' [E R]]]; [left; discriminate|].
        exists j, q'. split; [exact E|]. right.
        destruct R as [R|R]; [inversion R; subst; lia | lia].
      * destruct (IH (S i) (Some (j0, b))) as [j [q' [E R]]]; [left; discriminate|].
        exists j, q'. split; [exact E|].
        destruct R as [R|R]; [left; exact R | right; lia].
    + destruct (IH (S i) (Some (i, q))) as [j [q' [E R]]]; [left; discriminate|].
      exists j, q'. split; [exact E|]. right.
      destruct R as [R|R]; [inversion R; subst; lia | lia].
  - simpl. destruct (IH (S i) best) as [j [q' [E R]]].
    + destruct H as [H|[v [Hv|Hv]]]; [left; exact H | discriminate | right; exists v; exact Hv].
    + exists j, q'. split; [exact E|].
      destruct R as [R|R]; [left; exact R | right; lia].
Qed.

Lemma idx_best_ok (better : Q -> Q -> bool) (s : list float) :
  (exists v, In (Some v) s) ->
  exists j, idx_best better s = Ok j /\ (j < List.length s)%nat.
Proof.
  intros H. unfold idx_best.
  destruct (arg_best_found better s O None (or_intror H)) as [j [q [E R]]].
  destruct s as [|a s]; [destruct H as [v []]|].
  rewrite E. exists j. split; [reflexivity|].
  destruct R as [R|R]; [discriminate | lia].
Qed.

Lemma loc_ok (master : list Master.row) (i : nat) :
  (i < List.length master)%nat -> exists r, loc master i = Ok r.
Proof.
  intros H. unfold loc.
  destruct (nth_error master i) as [r|] eqn:E.
  - exists r. reflexivity.
  - apply nth_error_None in E. lia.
Qed.

Lemma key_insights_ok (master : list Master.row) (rate8 : float) :
  master <> [] ->
  (forall r, In r master -> notna (Master.meets_8min r) = true) ->
  exists found, key_insights master rate8 = Ok found.
Proof.
  intros Hne Hall. destruct master as [|r0 master]; [contradiction|].
  set (m := r0 :: master) in *.
  assert (H8 : exists v, In (Some v) (map Master.meets_8min m)).
  { pose proof (Hall r0 (or_introl eq_refl)) as H.
    destruct (Master.meets_8min r0) as [v|] eqn:E; [|discriminate].
    exists v. left. exact E. }
  assert (Hc : exists v, In (Some v) (map (fun r => of_Z (Master.total_calls r)) m)).
  { eexists. left. reflexivity. }
  unfold key_insights.
  destruct (idx_best_ok (fun q b => negb (Qle_bool q b)) _ H8) as [i1 [E1 L1]].
  destruct (idx_best_ok (fun q b => negb (Qle_bool b q)) _ H8) as [i2 [E2 L2]].
  destruct (idx_best_ok (fun q b => negb (Qle_bool q b)) _ Hc) as [i3 [E3 L3]].
  rewrite length_map in L1, L2, L3.
  destruct (loc_ok m i1 L1) as [r1 R1].
  destruct (loc_ok m i2 L2) as [r2 R2].
  destruct (loc_ok m i3 L3) as [r3 R3].
  unfold meets_8min_column. subst m. cbn [bind].
  unfold idxmax, idxmin. rewrite E1. cbn [bind].
  rewrite R1. cbn [bind]. rewrite E2. cbn [bind].
  rewrite R2. cbn [bind]. rewrite E3. cbn [bind].
  rewrite R3. cbn [bind]. eexists. reflexivity.
Qed.

Lemma mapM_ok {A B : Type} (f : A -> result B) (l : list A) :
  (forall a, In a l -> exists b, f a = Ok b) ->
  exists bs, mapM f l = Ok bs.
Proof.
  induction l as [|a l IH]; intros H.
  - exists []. reflexivity.
  - destruct (H a (or_introl eq_refl)) as [b Eb].
    destruct IH as [bs Ebs]; [intros; apply H; right; assumption|].
    exists (b :: bs). simpl. rewrite Eb. simpl. rewrite Ebs. reflexivity.
Qed.

Lemma fig_radar_ok (master : list Master.row) :
  exists traces, fig_radar master = Ok traces.
Proof.
  unfold fig_radar. apply mapM_ok. intros name Hname.
  apply in_map_iff in Hname. destruct Hname as [r [<- Hr]].
  unfold radar_trace.
  destruct (filter (fun r' => String.eqb (Master.borough r') (Master.borough r)) master)
    as [|r1 rest] eqn:E.
  - assert (Hin : In r (filter (fun r' => String.eqb (Master.borough r')
                                                     (Master.borough r)) master)).
    { apply filter_In. split; [exact Hr | apply String.eqb_refl]. }
    rewrite E in Hin. destruct Hin.
  - eexists. reflexivity.
Qed.

Lemma master_data_nonempty (raw : list Raw.row) (clean : list Incident.row) :
  clean_dataset raw = Ok clean -> clean <> [] -> master_data clean <> [].
Proof.
  intros H Hne. destruct clean as [|r clean]; [contradiction|].
  destruct (clean_row_present raw _ r H (or_introl eq_refl)) as [b [_ [Hb _]]].
  assert (Hk : In b (group_keys (r :: clean))).
  { apply group_keys_In. exists r. split; [left; reflexivity | exact Hb]. }
  rewrite master_data_groups.
  destruct (group_keys (r :: clean)); [destruct Hk | discriminate].
Qed.

Lemma marker_size_ok (sizes : list float) :
  (forall v, In v sizes -> flt v (Some 0) = false) ->
  marker_size sizes = Ok tt.
Proof.
  intros H. unfold marker_size.
  destruct (existsb (fun v => flt v (Some 0)) sizes) eqn:E; [|reflexivity].
  apply existsb_exists in E. destruct E as [v [Hv Hneg]].
  rewrite (H v Hv) in Hneg. discriminate.
Qed.

(** With at least one surviving incident and no negative mean dispatch time
    the steps modelled here raise nothing. *)
Lemma run_completes (raw : list Raw.row) (clean : list Incident.row) :
  clean_dataset raw = Ok clean -> clean <> [] ->
  (forall row, In row (master_data clean) ->
     flt (Master.avg_dispatch_sec row) (Some 0) = false) ->
  exists out rep,
    run raw = (out, Ok rep)
    /\ rep_master rep = master_data clean
    /\ List.length out = 18%nat.
Proof.
  intros H Hne Hsize.
  destruct (key_insights_ok (master_data clean)
              (overall_8min_rate (kpi_summary clean))) as [found Hf].
  - apply (master_data_nonempty raw); assumption.
  - intros r Hr. apply master_data_row in Hr. destruct Hr as [k [Hk ->]].
    destruct (rate_mono 300 480 (filter (in_group k) clean)) as [a [b [_ [Hb _]]]];
      [lra | apply group_nonempty; assumption |].
    unfold master_row, join, metrics_row. cbn [Master.meets_8min Metrics.meets_8min].
    unfold rate in Hb. rewrite Hb. reflexivity.
  - destruct (fig_radar_ok (master_data clean)) as [traces Ht].
    assert (Hm : marker_size (map Master.avg_dispatch_sec (master_data clean))
                 = Ok tt).
    { apply marker_size_ok. intros v Hv. apply in_map_iff in Hv.
      destruct Hv as [row [<- Hrow]]. apply Hsize. exact Hrow. }
    unfold run, main, sbind, lift, emit, ret. rewrite H.
    cbv beta iota. rewrite Hf. cbv beta iota. rewrite Hm. cbv beta iota.
    rewrite Ht.
    eexists. eexists. split; [reflexivity|]. split; reflexivity.
Qed.

(** ** The sample tables *)

(** The scenario of the specification: R1 has two calls, half of them within
    5 minutes and all within 8; R2 has one call, an extreme delay. *)
Example scenario_master_data : master_data scenario_clean = scenario_master.
Proof. vm_compute. reflexivity. Qed.

Lemma meets_5min_le_meets_8min_witness :
  In scenario_R1 (master_data scenario_clean)
  /\ exists a b, Master.meets_5min scenario_R1 = Some a
                 /\ Master.meets_8min scenario_R1 = Some b
                 /\ a <= b.
Proof.
  assert (H : In scenario_R1 (master_data scenario_clean)).
  { vm_compute. left. reflexivity. }
  split; [exact H|].
  apply (meets_5min_le_meets_8min scenario_clean scenario_R1). exact H.
Defined.


Lemma empty_incident_set_aborts_witness :
  clean_dataset unusable_raw = Ok []
  /\ exists e,
       run unusable_raw
       = ([Text "# NYC EMS RESPONSE TIME ANALYSIS";
           Text "*Comprehensive performance dashboard for emergency medical services*"],
          Raise e).
Proof.
  split; [reflexivity|].
  apply (empty_incident_set_aborts unusable_raw). reflexivity.
Defined.

Lemma reliability_score_without_extreme_delays_witness :
  reliability_score (master_data prompt_clean) prompt_R2 = Some 100.
Proof.
  apply (reliability_score_without_extreme_delays prompt_raw prompt_clean).
  - reflexivity.
  - intros r Hr. simpl in Hr.
    destruct Hr as [<-|[<-|[]]]; reflexivity.
  - vm_compute. right. left. reflexivity.
Defined.

Lemma speed_score_extremes_witness :
  speed_score scenario_master scenario_R1 = Some 100
  /\ speed_score scenario_master scenario_R2 = Some 0.
Proof.
  assert (Hv : varies (map Master.avg_dispatch_sec scenario_master)).
  { exists 300, 700. split; [simpl; auto|]. split; [simpl; auto|].
    intros E. vm_compute in E. discriminate. }
  split.
  - apply (proj1 (speed_score_extremes scenario_master scenario_R1 Hv
                    (or_introl eq_refl))).
    intros r' [<-|[<-|[]]]; reflexivity.
  - apply (proj2 (speed_score_extremes scenario_master scenario_R2 Hv
                    (or_intror (or_introl eq_refl)))).
    intros r' [<-|[<-|[]]]; reflexivity.
Defined.

(** * Further properties of the pipeline *)

(** ** Sorted tables *)

Section SortFacts.
Context {A : Type} (leb : A -> A -> bool).
Hypothesis leb_total : forall a b, leb a b = true \/ leb b a = true.

Let le (a b : A) : Prop := leb a b = true.

Lemma insert_sorted_HdRel (a b : A) (l : list A) :
  le b a -> HdRel le b l -> HdRel le b (insert_sorted leb a l).
Proof.
  intros Hba Hl. destruct l as [|c l]; simpl.
  - constructor. exact Hba.
  - destruct (leb a c); constructor.
    + exact Hba.
    + inversion Hl. assumption.
Qed.

Lemma insert_sorted_Sorted (a : A) (l : list A) :
  Sorted le l -> Sorted le (insert_sorted leb a l).
Proof.
  induction l as [|b l IH]; intros Hs; simpl.
  - constructor; constructor.
  - destruct (leb a b) eqn:E.
    + constructor; [exact Hs | constructor; exact E].
    + inversion Hs as [|? ? Hl Hhd]; subst.
      constructor; [apply IH; exact Hl|].
      apply insert_sorted_HdRel; [|exact Hhd].
      destruct (leb_total a b) as [H|H]; [congruence | exact H].
Qed.

Lemma sort_by_Sorted (l : list A) : Sorted le (sort_by leb l).
Proof.
  induction l as [|a l IH]; simpl.
  - constructor.
  - apply insert_sorted_Sorted. exact IH.
Qed.
End SortFacts.

Lemma desc_leb_total (x y : float) :
  desc_leb x y = true \/ desc_leb y x = true.
Proof.
  destruct x as [p|], y as [q|]; simpl; auto.
  destruct (Qle_bool q p) eqn:E; [left; reflexivity|right].
  qbool. apply Qle_bool_iff. lra.
Qed.

Lemma Qle_bool_total (a b : Q) : Qle_bool a b = true \/ Qle_bool b a = true.
Proof.
  destruct (Qle_bool a b) eqn:E; [left; reflexivity|right].
  qbool. apply Qle_bool_iff. lra.
Qed.

(** ** One row per borough *)

Lemma master_data_boroughs_keys (ds : list Incident.row) :
  map Master.borough (master_data ds) = group_keys ds.
Proof.
  rewrite master_data_groups, map_map. simpl. apply map_id.
Qed.

(** X1. The master table has one row for each borough that occurs in the
    data, no borough twice, and the rows are in increasing order of the
    borough name. *)
Theorem master_data_boroughs (ds : list Incident.row) :
  NoDup (map Master.borough (master_data ds))
  /\ Sorted string_le (map Master.borough (master_data ds))
  /\ forall b, In b (map Master.borough (master_data ds))
               <-> exists r, In r ds /\ Incident.borough r = Some b.
Proof.
  rewrite master_data_boroughs_keys. split; [apply group_keys_NoDup|]. split.
  - unfold group_keys, string_le.
    apply (sort_by_Sorted String.leb String.leb_total).
  - intros b. apply group_keys_In.
Qed.

(** ** Rounding of whole numbers *)

Lemma Qred_inject_Z (z : Z) : Qred (inject_Z z) = inject_Z z.
Proof.
  unfold Qred, inject_Z. cbn [Qnum Qden].
  pose proof (Z.ggcd_gcd z 1) as Hg.
  pose proof (Z.ggcd_correct_divisors z 1) as Hd.
  destruct (Z.ggcd z 1) as [g [aa bb]]. cbn [fst snd] in *.
  rewrite Z.gcd_1_r in Hg. subst g. destruct Hd as [Ha Hb].
  rewrite Z.mul_1_l in Ha, Hb. subst aa bb. reflexivity.
Qed.

Lemma rint_comp (a b : Q) : a == b -> rint a = rint b.
Proof.
  intros H. unfold rint. rewrite (Qfloor_comp a b H).
  assert (E : a - inject_Z (Qfloor b) == b - inject_Z (Qfloor b)) by (rewrite H; reflexivity).
  rewrite (Qcompare_comp _ _ E (1 # 2) (1 # 2) (Qeq_refl _)). reflexivity.
Qed.

Lemma rint_inject_Z (z : Z) : rint (inject_Z z) = z.
Proof.
  unfold rint. rewrite Qfloor_Z.
  destruct (Qcompare_spec (inject_Z z - inject_Z z) (1 # 2)) as [C|C|C].
  - exfalso. lra.
  - reflexivity.
  - exfalso. lra.
Qed.

(** Rounding leaves a whole number as it is. *)
Lemma round_dec_inject_Z (n : nat) (z : Z) :
  round_dec n (inject_Z z) = inject_Z z.
Proof.
  unfold round_dec, pow10.
  rewrite (rint_comp _ (inject_Z (z * 10 ^ Z.of_nat n)))
    by (rewrite inject_Z_mult; reflexivity).
  rewrite rint_inject_Z. apply Qred_eq; [|apply Qred_inject_Z].
  rewrite inject_Z_mult.
  pose proof (pow10_pos n) as Hp. unfold pow10 in Hp.
  field. lra.
Qed.

Lemma round_dec_range (n : nat) (lo hi : Z) (q : Q) :
  inject_Z lo <= q <= inject_Z hi ->
  inject_Z lo <= round_dec n q <= inject_Z hi.
Proof.
  intros [H1 H2]. split.
  - rewrite <- (round_dec_inject_Z n lo). apply round_dec_mono. exact H1.
  - rewrite <- (round_dec_inject_Z n hi). apply round_dec_mono. exact H2.
Qed.

(** ** The groups partition the table *)

Lemma nsum_map_add {A : Type} (f g : A -> nat) (l : list A) :
  nsum (map (fun k => (f k + g k)%nat) l)
  = (nsum (map f l) + nsum (map g l))%nat.
Proof.
  unfold nsum. induction l as [|a l IH]; simpl; [reflexivity | lia].
Qed.

Lemma nsum_map_zero {A : Type} (f : A -> nat) (l : list A) :
  (forall a, In a l -> f a = 0%nat) -> nsum (map f l) = 0%nat.
Proof.
  unfold nsum. induction l as [|a l IH]; intros H; simpl.
  - reflexivity.
  - rewrite (H a (or_introl eq_refl)), IH; [reflexivity|].
    intros; apply H; right; assumption.
Qed.

Lemma nsum_indicator (keys : list string) (b : string) (w : nat) :
  NoDup keys -> In b keys ->
  nsum (map (fun k => if String.eqb b k then w else 0%nat) keys) = w.
Proof.
  intros Hnd. induction Hnd as [|a keys Hnot Hnd IH]; intros Hin.
  - destruct Hin.
  - change (nsum (map ?f (a :: keys))) with (f a + nsum (map f keys))%nat.
    cbv beta. destruct (String.eqb b a) eqn:E.
    + apply String.eqb_eq in E. subst a.
      rewrite nsum_map_zero; [lia|].
      intros k Hk. destruct (String.eqb b k) eqn:E'; [|reflexivity].
      apply String.eqb_eq in E'. subst k. contradiction.
    + simpl. apply IH. destruct Hin as [->|Hin]; [|exact Hin].
      rewrite String.eqb_refl in E. discriminate.
Qed.

Lemma partition_count (p : Incident.row -> bool) (keys : list string)
      (ds : list Incident.row) :
  NoDup keys ->
  (forall r, In r ds -> exists b, Incident.borough r = Some b /\ In b keys) ->
  nsum (map (fun k => List.length (filter p (filter (in_group k) ds))) keys)
  = List.length (filter p ds).
Proof.
  intros Hnd. induction ds as [|r ds IH]; intros Hall.
  - simpl. apply nsum_map_zero. reflexivity.
  - destruct (Hall r (or_introl eq_refl)) as [b [Hb Hin]].
    assert (IH' : nsum (map (fun k => List.length (filter p (filter (in_group k) ds))) keys)
                  = List.length (filter p ds))
      by (apply IH; intros; apply Hall; right; assumption).
    rewrite (map_ext _ (fun k => ((if String.eqb b k then (if p r then 1 else 0) else 0)
                                  + List.length (filter p (filter (in_group k) ds)))%nat)).
    + rewrite nsum_map_add, IH', (nsum_indicator keys b _ Hnd Hin).
      simpl. destruct (p r); simpl; lia.
    + intros k. simpl. unfold in_group at 1. rewrite Hb.
      destruct (String.eqb b k); [|reflexivity].
      simpl. destruct (p r); reflexivity.
Qed.

Lemma clean_rows_keyed (raw : list Raw.row) (clean : list Incident.row) :
  clean_dataset raw = Ok clean ->
  forall r, In r clean ->
    exists b, Incident.borough r = Some b /\ In b (group_keys clean).
Proof.
  intros H r Hr.
  destruct (clean_row_present raw clean r H Hr) as [b [_ [Hb _]]].
  exists b. split; [exact Hb|]. apply group_keys_In. exists r. auto.
Qed.

Lemma clean_group_count (raw : list Raw.row) (clean : list Incident.row)
      (k : string) :
  clean_dataset raw = Ok clean ->
  series_count (dispatch_col (filter (in_group k) clean))
  = List.length (filter (in_group k) clean).
Proof.
  intros H. unfold dispatch_col.
  rewrite series_count_all_present; [apply length_map|].
  intros v Hv. apply in_map_iff in Hv. destruct Hv as [r [<- Hr]].
  apply filter_In in Hr. destruct Hr as [Hr _].
  destruct (clean_row_present raw clean r H Hr) as [_ [x [_ ->]]].
  reflexivity.
Qed.

Lemma filter_true {A : Type} (l : list A) : filter (fun _ => true) l = l.
Proof. induction l as [|a l IH]; simpl; [|rewrite IH]; reflexivity. Qed.

Lemma zsum_of_nat {A : Type} (f : A -> nat) (l : list A) :
  zsum (map (fun a => Z.of_nat (f a)) l) = Z.of_nat (nsum (map f l)).
Proof.
  unfold zsum, nsum. induction l as [|a l IH]; simpl; [reflexivity|].
  rewrite IH. lia.
Qed.

(** X2. The call counts of the boroughs add up to the citywide number of
    calls: every surviving incident is counted in exactly one borough. *)
Theorem total_calls_partition (raw : list Raw.row) (clean : list Incident.row) :
  clean_dataset raw = Ok clean ->
  zsum (map Master.total_calls (master_data clean))
  = Z.of_nat (kpi_total_calls (kpi_summary clean)).
Proof.
  intros H. rewrite master_data_groups, map_map.
  cbn [kpi_summary kpi_total_calls].
  rewrite (map_ext _ (fun k => Z.of_nat (List.length (filter (in_group k) clean)))).
  - rewrite zsum_of_nat. f_equal.
    rewrite <- (filter_true clean) at 2.
    rewrite <- (partition_count (fun _ => true) (group_keys clean) clean).
    + apply f_equal, map_ext. intros k. rewrite filter_true. reflexivity.
    + apply group_keys_NoDup.
    + apply (clean_rows_keyed raw). exact H.
  - intros k. cbn. rewrite (clean_group_count raw clean k H). reflexivity.
Qed.

(** ** Extreme delays *)

Lemma bool_sum_map {A : Type} (f : A -> bool) (l : list A) :
  bool_sum (map f l) = List.length (filter f l).
Proof.
  unfold bool_sum. induction l as [|a l IH]; simpl; [reflexivity|].
  destruct (f a); simpl; rewrite IH; reflexivity.
Qed.

Lemma extreme_delays_count (g : list Incident.row) :
  bool_sum (gt_scalar 600 (dispatch_col g))
  = List.length
      (filter (fun r => fgt (Incident.dispatch_response_seconds_qy r) (Some 600)) g).
Proof.
  unfold gt_scalar, dispatch_col. rewrite map_map. apply bool_sum_map.
Qed.

Lemma master_extreme_delays (k : string) (g : list Incident.row) :
  Master.extreme_delays (master_row k g)
  = Some (inject_Z (Z.of_nat (bool_sum (gt_scalar 600 (dispatch_col g))))).
Proof.
  unfold master_row, join, metrics_row.
  cbn [Master.extreme_delays Metrics.extreme_delays].
  unfold of_nat, of_Z, fround. rewrite round_dec_inject_Z. reflexivity.
Qed.

Lemma nansum_of_nat {A : Type} (f : A -> nat) (l : list A) :
  nansum (map (fun a => Some (inject_Z (Z.of_nat (f a)))) l)
  == inject_Z (Z.of_nat (nsum (map f l))).
Proof.
  unfold nsum. induction l as [|a l IH]; simpl.
  - reflexivity.
  - rewrite IH, Nat2Z.inj_add, inject_Z_plus. reflexivity.
Qed.

(** X3. The extreme-delay counts of the boroughs add up to the citywide
    number of extreme delays. *)
Theorem extreme_delays_partition (raw : list Raw.row) (clean : list Incident.row) :
  clean_dataset raw = Ok clean ->
  nansum (map Master.extreme_delays (master_data clean))
  == inject_Z (Z.of_nat (kpi_extreme_delays (kpi_summary clean))).
Proof.
  intros H. rewrite master_data_groups, map_map.
  cbn [kpi_summary kpi_extreme_delays].
  rewrite (map_ext _ (fun k =>
             Some (inject_Z (Z.of_nat
               (List.length
                  (filter (fun r => fgt (Incident.dispatch_response_seconds_qy r)
                                        (Some 600))
                          (filter (in_group k) clean))))))).
  - rewrite nansum_of_nat, extreme_delays_count.
    rewrite (partition_count _ (group_keys clean) clean).
    + reflexivity.
    + apply group_keys_NoDup.
    + apply (clean_rows_keyed raw). exact H.
  - intros k. rewrite master_extreme_delays, extreme_delays_count. reflexivity.
Qed.

Lemma has_bucket_critical (r : Incident.row) :
  has_bucket Critical r
  = fgt (Incident.dispatch_response_seconds_qy r) (Some 600).
Proof.
  destruct (Incident.dispatch_response_seconds_qy r) as [x|] eqn:Hx.
  - unfold has_bucket. rewrite (perf_bucket_value r x Hx).
    unfold fgt, flt.
    destruct (Qle_bool x 0) eqn:E0; destruct (Qle_bool x 300) eqn:E3;
      destruct (Qle_bool x 480) eqn:E4; destruct (Qle_bool x 600) eqn:E6;
      simpl; qbool; try reflexivity; exfalso; lra.
  - unfold has_bucket, perf_bucket. rewrite Hx. reflexivity.
Qed.

(** X4. The last bucket and the extreme-delay figure use one boundary: on
    any table the count of the bucket "Critical (>10min)" is the number of
    extreme delays of the executive summary. *)
Theorem critical_bucket_counts_extreme_delays (ds : list Incident.row) :
  In (Critical, kpi_extreme_delays (kpi_summary ds)) (bucket_counts ds).
Proof.
  cbn [kpi_summary kpi_extreme_delays]. rewrite extreme_delays_count.
  rewrite <- (filter_ext (has_bucket Critical) _ has_bucket_critical).
  apply bucket_counts_entry.
Qed.

(** ** Ranges of the master columns *)

Lemma bool_sum_le_length (bs : list bool) : (bool_sum bs <= List.length bs)%nat.
Proof.
  unfold bool_sum. induction bs as [|b bs IH]; simpl; [lia|].
  destruct b; simpl; lia.
Qed.

Lemma rate_in_range (c : Q) (g : list Incident.row) :
  g <> [] -> score_in_range (rate c g).
Proof.
  intros Hg. unfold rate.
  rewrite bool_mean_nonempty
    by (unfold le_scalar, dispatch_col; apply map_nonempty, map_nonempty, Hg).
  unfold fmul, fround, score_in_range. eexists. split; [reflexivity|].
  change 0 with (inject_Z 0). change 100 with (inject_Z 100).
  apply round_dec_range. rewrite Qred_correct.
  pose proof (bool_sum_le_length (le_scalar c (dispatch_col g))) as Hle.
  set (s := bool_sum (le_scalar c (dispatch_col g))) in *.
  set (n := List.length (le_scalar c (dispatch_col g))) in *.
  assert (Hn : (0 < n)%nat).
  { subst n. unfold le_scalar, dispatch_col. rewrite !length_map.
    destruct g; [contradiction | simpl; lia]. }
  assert (Hs0 : 0 <= inject_Z (Z.of_nat s))
    by (change 0 with (inject_Z 0); rewrite <- Zle_Qle; lia).
  assert (Hsn : inject_Z (Z.of_nat s) <= inject_Z (Z.of_nat n))
    by (rewrite <- Zle_Qle; lia).
  assert (Hn0 : 0 < inject_Z (Z.of_nat n))
    by (change 0 with (inject_Z 0); rewrite <- Zlt_Qlt; lia).
  assert (H0 : 0 <= inject_Z (Z.of_nat s) / inject_Z (Z.of_nat n))
    by (apply Qle_shift_div_l; lra).
  assert (H1 : inject_Z (Z.of_nat s) / inject_Z (Z.of_nat n) <= 1)
    by (apply Qle_shift_div_r; lra).
  generalize dependent (inject_Z (Z.of_nat s) / inject_Z (Z.of_nat n)).
  intros t H0 H1. change (inject_Z 0) with 0. change (inject_Z 100) with 100.
  split; rewrite ?Qred_correct; lra.
Qed.

Lemma series_mean_defined (s : list float) :
  series_count s <> 0%nat -> notna (series_mean s) = true.
Proof.
  unfold series_mean. destruct (series_count s); [contradiction | reflexivity].
Qed.

Lemma series_median_defined (s : list float) :
  series_count s <> 0%nat -> notna (series_median s) = true.
Proof.
  rewrite series_count_present. unfold series_median.
  rewrite sort_by_length.
  destruct (List.length (present s)); [contradiction|].
  destruct (Nat.even (S n)); reflexivity.
Qed.

Lemma notna_fround (n : nat) (v : float) : notna (fround n v) = notna v.
Proof. destruct v; reflexivity. Qed.

Lemma master_row_rates
      (raw : list Raw.row) (clean : list Incident.row) (row : Master.row) :
  clean_dataset raw = Ok clean ->
  In row (master_data clean) ->
  notna (Master.avg_dispatch_sec row) = true
  /\ score_in_range (Master.meets_5min row)
  /\ score_in_range (Master.meets_8min row).
Proof.
  intros H Hin. apply master_data_row in Hin. destruct Hin as [k [Hk ->]].
  pose proof (group_nonempty clean k Hk) as Hg.
  pose proof (clean_group_count raw clean k H) as Hc.
  set (g := filter (in_group k) clean) in *.
  assert (Hlen : (1 <= List.length g)%nat) by (destruct g; [contradiction | simpl; lia]).
  assert (Hcnt : series_count (dispatch_col g) <> 0%nat) by lia.
  unfold master_row, join, stats_row.
  cbn [Master.avg_dispatch_sec Master.meets_5min Master.meets_8min
       Stats.avg_dispatch_sec].
  split; [rewrite notna_fround; apply series_mean_defined; exact Hcnt|].
  split; [apply (rate_in_range 300 g Hg) | apply (rate_in_range 480 g Hg)].
Qed.

(** X5. Every row of the master table of a cleaned table is fully defined
    and in range: at least one call, a mean and a median dispatch time, both
    compliance rates between 0 and 100, and a whole number of extreme delays
    that does not exceed the number of calls. *)
Theorem master_row_in_range
        (raw : list Raw.row) (clean : list Incident.row) (row : Master.row) :
  clean_dataset raw = Ok clean ->
  In row (master_data clean) ->
  (1 <= Master.total_calls row)%Z
  /\ notna (Master.avg_dispatch_sec row) = true
  /\ notna (Master.median_dispatch_sec row) = true
  /\ score_in_range (Master.meets_5min row)
  /\ score_in_range (Master.meets_8min row)
  /\ exists n, Master.extreme_delays row = Some (inject_Z (Z.of_nat n))
               /\ (Z.of_nat n <= Master.total_calls row)%Z.
Proof.
  intros H Hin. apply master_data_row in Hin. destruct Hin as [k [Hk ->]].
  pose proof (group_nonempty clean k Hk) as Hg.
  pose proof (clean_group_count raw clean k H) as Hc.
  set (g := filter (in_group k) clean) in *.
  assert (Hlen : (1 <= List.length g)%nat) by (destruct g; [contradiction | simpl; lia]).
  assert (Hcnt : series_count (dispatch_col g) <> 0%nat) by lia.
  unfold master_row, join, stats_row.
  cbn [Master.total_calls Master.avg_dispatch_sec Master.median_dispatch_sec
       Master.meets_5min Master.meets_8min Master.extreme_delays
       Stats.total_calls Stats.avg_dispatch_sec Stats.median_dispatch_sec].
  split; [lia|].
  split; [rewrite notna_fround; apply series_mean_defined; exact Hcnt|].
  split; [rewrite notna_fround; apply series_median_defined; exact Hcnt|].
  split; [apply (rate_in_range 300 g Hg)|].
  split; [apply (rate_in_range 480 g Hg)|].
  exists (bool_sum (gt_scalar 600 (dispatch_col g))). split.
  - apply (master_extreme_delays k g).
  - rewrite Hc.
    pose proof (bool_sum_le_length (gt_scalar 600 (dispatch_col g))) as Hb.
    unfold gt_scalar at 2 in Hb. unfold dispatch_col at 2 in Hb.
    rewrite !length_map in Hb. lia.
Qed.

(** ** Reliability score *)

Lemma master_extreme_delays_column (ds : list Incident.row) (v : float) :
  In v (map Master.extreme_delays (master_data ds)) ->
  exists n, v = Some (inject_Z (Z.of_nat n)).
Proof.
  intros Hv. apply in_map_iff in Hv. destruct Hv as [r [<- Hr]].
  apply master_data_row in Hr. destruct Hr as [k [_ ->]].
  eexists. apply master_extreme_delays.
Qed.

Lemma reliability_score_value (master : list Master.row) (row : Master.row)
      (e hi : Q) :
  Master.extreme_delays row = Some e ->
  series_max (map Master.extreme_delays master) = Some hi ->
  0 < hi ->
  reliability_score master row = Some (Qred (100 - e / hi * 100)).
Proof.
  intros He Hhi Hpos. unfold reliability_score. rewrite He, Hhi.
  assert (Hgt : fgt (Some hi) (Some 0) = true).
  { unfold fgt, flt. destruct (Qle_bool hi 0) eqn:E; [|reflexivity].
    qbool. lra. }
  rewrite Hgt. unfold fdiv.
  destruct (Qeq_bool hi 0) eqn:E.
  - apply Qeq_bool_iff in E. lra.
  - unfold fmul, fsub. f_equal. apply Qred_complete.
    rewrite !Qred_correct. reflexivity.
Qed.

Lemma reliability_score_range (ds : list Incident.row) (row : Master.row) :
  In row (master_data ds) ->
  score_in_range (reliability_score (master_data ds) row).
Proof.
  intros Hin.
  assert (Hcol : In (Master.extreme_delays row)
                    (map Master.extreme_delays (master_data ds)))
    by (apply in_map; exact Hin).
  destruct (master_extreme_delays_column ds _ Hcol) as [n Hn].
  destruct (series_max_spec _ _ (eq_ind _ (fun v => In v _) Hcol _ Hn))
    as [hi [Hhi [Hhin Hle]]].
  assert (Hehi : inject_Z (Z.of_nat n) <= hi) by (apply Hle; rewrite <- Hn; exact Hcol).
  assert (He0 : 0 <= inject_Z (Z.of_nat n))
    by (change 0 with (inject_Z 0); rewrite <- Zle_Qle; lia).
  destruct (Qlt_le_dec 0 hi) as [Hpos|Hnon].
  - rewrite (reliability_score_value _ row _ hi Hn Hhi Hpos).
    unfold score_in_range. eexists. split; [reflexivity|].
    rewrite Qred_correct.
    assert (H0 : 0 <= inject_Z (Z.of_nat n) / hi) by (apply Qle_shift_div_l; lra).
    assert (H1 : inject_Z (Z.of_nat n) / hi <= 1) by (apply Qle_shift_div_r; lra).
    generalize dependent (inject_Z (Z.of_nat n) / hi). intros t H0 H1. lra.
  - unfold reliability_score. rewrite Hhi.
    assert (Hgt : fgt (Some hi) (Some 0) = false).
    { unfold fgt, flt. apply negb_false_iff, Qle_bool_iff. exact Hnon. }
    rewrite Hgt. exists 100. split; [reflexivity | lra].
Qed.

(** X6. The reliability score of every row of the master table is a number
    between 0 and 100, and it is 0 for a borough that has the most extreme
    delays when there are any. *)
Theorem reliability_score_in_range (ds : list Incident.row) (row : Master.row) :
  In row (master_data ds) ->
  score_in_range (reliability_score (master_data ds) row)
  /\ (Master.extreme_delays row
      = series_max (map Master.extreme_delays (master_data ds)) ->
      fgt (Master.extreme_delays row) (Some 0) = true ->
      reliability_score (master_data ds) row = Some 0).
Proof.
  intros Hin. split; [apply reliability_score_range; exact Hin|].
  intros Hmax Hpos.
  destruct (series_max (map Master.extreme_delays (master_data ds)))
    as [hi|] eqn:Hhi; [|rewrite Hmax in Hpos; discriminate].
  rewrite Hmax in Hpos.
  assert (Hp : 0 < hi).
  { unfold fgt, flt in Hpos. destruct (Qle_bool hi 0) eqn:E; [discriminate|].
    qbool. lra. }
  rewrite (reliability_score_value _ row hi hi Hmax Hhi Hp).
  f_equal. apply Qred_eq; [|reflexivity]. field. lra.
Qed.

(** ** The radar chart *)

Lemma filter_unique_borough (master : list Master.row) (row : Master.row) :
  NoDup (map Master.borough master) -> In row master ->
  filter (fun r => String.eqb (Master.borough r) (Master.borough row)) master
  = [row].
Proof.
  induction master as [|a master IH]; intros Hnd Hin; [destruct Hin|].
  simpl in Hnd. inversion Hnd as [|? ? Hnot Hnd']; subst.
  simpl. destruct Hin as [->|Hin].
  - rewrite String.eqb_refl. f_equal.
    clear IH Hnd Hnd'. induction master as [|b master IH]; simpl; [reflexivity|].
    destruct (String.eqb (Master.borough b) (Master.borough row)) eqn:E.
    + apply String.eqb_eq in E. exfalso. apply Hnot. left. exact E.
    + apply IH. intros H. apply Hnot. right. exact H.
  - destruct (String.eqb (Master.borough a) (Master.borough row)) eqn:E.
    + apply String.eqb_eq in E. exfalso. apply Hnot. rewrite E.
      apply in_map. exact Hin.
    + apply IH; assumption.
Qed.

Lemma mapM_map_ok {A B C : Type} (f : B -> result C) (g : A -> B) (h : A -> C)
      (l : list A) :
  (forall a, In a l -> f (g a) = Ok (h a)) ->
  mapM f (map g l) = Ok (map h l).
Proof.
  induction l as [|a l IH]; intros H; simpl.
  - reflexivity.
  - rewrite (H a (or_introl eq_refl)). simpl.
    rewrite IH by (intros; apply H; right; assumption). reflexivity.
Qed.

(** X7. The radar loop never fails on a master table and draws one trace
    per borough, in table order: looking a borough up by its name finds the
    row the name came from, because no borough occurs twice. *)
Theorem fig_radar_traces (ds : list Incident.row) :
  fig_radar (master_data ds)
  = Ok (map (trace_of (master_data ds)) (master_data ds)).
Proof.
  unfold fig_radar. apply mapM_map_ok. intros row Hrow.
  unfold radar_trace.
  rewrite (filter_unique_borough (master_data ds) row).
  - reflexivity.
  - rewrite master_data_boroughs_keys. apply group_keys_NoDup.
  - exact Hrow.
Qed.

(** X8. When the master table holds more than one distinct mean dispatch
    time, a mean being held there to two decimals, the four values of every
    radar trace lie on the chart's axis from 0 to 100. *)
Theorem radar_values_in_range
        (raw : list Raw.row) (clean : list Incident.row) (row : Master.row) :
  clean_dataset raw = Ok clean ->
  varies (map Master.avg_dispatch_sec (master_data clean)) ->
  In row (master_data clean) ->
  Forall score_in_range (trace_r (trace_of (master_data clean) row)).
Proof.
  intros H Hv Hin.
  destruct (master_row_rates raw clean row H Hin) as [Havg [H5 H8]].
  unfold trace_of. cbn [trace_r].
  repeat constructor.
  - exact H8.
  - apply speed_score_in_range; assumption.
  - exact H5.
  - apply reliability_score_range. exact Hin.
Qed.

(** ** Best, worst and busiest borough *)

Section ArgBest.
Variable better : Q -> Q -> bool.
Variable ord : Q -> Q -> Prop.
Hypothesis ord_refl : forall a, ord a a.
Hypothesis ord_trans : forall a b c, ord a b -> ord b c -> ord a c.
Hypothesis better_true : forall q b, better q b = true -> ord b q.
Hypothesis better_false : forall q b, better q b = false -> ord q b.

Lemma arg_best_spec (s : list float) (i : nat) (best : option (nat * Q))
      (j : nat) (m : Q) :
  arg_best better s i best = Some (j, m) ->
  (forall j0 b, best = Some (j0, b) -> ord b m)
  /\ (forall v, In (Some v) s -> ord v m)
  /\ (best = Some (j, m)
      \/ ((i <= j)%nat /\ nth_error s (j - i) = Some (Some m))).
Proof.
  revert i best. induction s as [|[q|] t IH]; intros i best H; simpl in H.
  - subst best. split; [|split].
    + intros j0 b E. inversion E; subst. apply ord_refl.
    + intros v [].
    + left. reflexivity.
  - assert (Hstep : forall bst,
              arg_best better t (S i) bst = Some (j, m) ->
              (bst = Some (i, q) \/ bst = best) ->
              (forall j0 b, bst = Some (j0, b) -> ord b m)
              /\ (forall v, In (Some v) t -> ord v m)
              /\ (bst = Some (j, m)
                  \/ ((i <= j)%nat /\ nth_error (Some q :: t) (j - i) = Some (Some m)))).
    { intros bst Hb _. destruct (IH (S i) bst Hb) as [H1 [H2 H3]].
      split; [exact H1|]. split; [exact H2|].
      destruct H3 as [H3|[Hle Hn]]; [left; exact H3|right].
      split; [lia|]. replace (j - i)%nat with (S (j - S i)) by lia. exact Hn. }
    destruct best as [[j0 b]|].
    + destruct (better q b) eqn:E.
      * destruct (Hstep _ H (or_introl eq_refl)) as [H1 [H2 H3]].
        assert (Hq : ord q m) by (apply (H1 i q); reflexivity).
        split; [|split].
        -- intros j1 b1 E1. inversion E1; subst.
           apply ord_trans with q; [apply better_true; exact E | exact Hq].
        -- intros v [Hv|Hv]; [inversion Hv; subst; exact Hq | apply H2; exact Hv].
        -- right. destruct H3 as [H3|H3]; [|exact H3].
           inversion H3; subst. split; [lia|].
           rewrite Nat.sub_diag. reflexivity.
      * destruct (Hstep _ H (or_intror eq_refl)) as [H1 [H2 H3]].
        assert (Hb : ord b m) by (apply (H1 j0 b); reflexivity).
        split; [|split].
        -- intros j1 b1 E1. inversion E1; subst. exact Hb.
        -- intros v [Hv|Hv]; [|apply H2; exact Hv].
           inversion Hv; subst.
           apply ord_trans with b; [apply better_false; exact E | exact Hb].
        -- exact H3.
    + destruct (Hstep _ H (or_introl eq_refl)) as [H1 [H2 H3]].
      assert (Hq : ord q m) by (apply (H1 i q); reflexivity).
      split; [|split].
      * intros j1 b1 E1. discriminate.
      * intros v [Hv|Hv]; [inversion Hv; subst; exact Hq | apply H2; exact Hv].
      * right. destruct H3 as [H3|H3]; [|exact H3].
        inversion H3; subst. split; [lia|].
        rewrite Nat.sub_diag. reflexivity.
  - destruct (IH (S i) best H) as [H1 [H2 H3]].
    split; [exact H1|]. split.
    + intros v [Hv|Hv]; [discriminate | apply H2; exact Hv].
    + destruct H3 as [H3|[Hle Hn]]; [left; exact H3|right].
      split; [lia|]. replace (j - i)%nat with (S (j - S i)) by lia. exact Hn.
Qed.

Lemma idx_best_spec (s : list float) (j : nat) :
  idx_best better s = Ok j ->
  exists m, nth_error s j = Some (Some m)
            /\ forall v, In (Some v) s -> ord v m.
Proof.
  unfold idx_best. intros H.
  destruct s as [|a s]; [discriminate|].
  destruct (arg_best better (a :: s) 0 None) as [[j' m]|] eqn:E; [|discriminate].
  inversion H; subst j'.
  destruct (arg_best_spec _ _ _ _ _ E) as [_ [H2 H3]].
  exists m. split; [|exact H2].
  destruct H3 as [H3|[_ H3]]; [discriminate|].
  rewrite Nat.sub_0_r in H3. exact H3.
Qed.
End ArgBest.

Lemma idxmax_spec (s : list float) (j : nat) :
  idxmax s = Ok j ->
  exists m, nth_error s j = Some (Some m)
            /\ forall v, In (Some v) s -> v <= m.
Proof.
  apply (idx_best_spec _ (fun v m => v <= m)).
  - intros a. lra.
  - intros a b c H1 H2. lra.
  - intros q b E. apply negb_true_iff in E. qbool. lra.
  - intros q b E. apply negb_false_iff in E. qbool. exact E.
Qed.

Lemma idxmin_spec (s : list float) (j : nat) :
  idxmin s = Ok j ->
  exists m, nth_error s j = Some (Some m)
            /\ forall v, In (Some v) s -> m <= v.
Proof.
  apply (idx_best_spec _ (fun v m => m <= v)).
  - intros a. lra.
  - intros a b c H1 H2. lra.
  - intros q b E. apply negb_true_iff in E. qbool. lra.
  - intros q b E. apply negb_false_iff in E. qbool. exact E.
Qed.

Lemma meets_8min_column_inv (master : list Master.row) (c : list float) :
  meets_8min_column master = Ok c -> c = map Master.meets_8min master.
Proof.
  unfold meets_8min_column. destruct master; intros H; inversion H. reflexivity.
Qed.

Lemma loc_inv (master : list Master.row) (i : nat) (r : Master.row) :
  loc master i = Ok r -> nth_error master i = Some r.
Proof.
  unfold loc. destruct (nth_error master i); intros H; inversion H. reflexivity.
Qed.

Lemma column_nth {A : Type} (f : Master.row -> A) (master : list Master.row)
      (i : nat) (r : Master.row) (v : A) :
  nth_error master i = Some r -> nth_error (map f master) i = Some v -> f r = v.
Proof.
  intros Hr Hv. rewrite nth_error_map, Hr in Hv. inversion Hv. reflexivity.
Qed.

(** X9. When the search for the best, the worst and the busiest borough
    succeeds, each is a row of the master table; no row has a higher 8-minute
    rate than the best, none a lower one than the worst, and none more calls
    than the busiest. *)
Theorem key_insights_extremes
        (master : list Master.row) (rate8 : float) (found : insights) :
  key_insights master rate8 = Ok found ->
  (In (best_borough found) master
   /\ In (worst_borough found) master
   /\ In (busiest_borough found) master)
  /\ forall r, In r master ->
       notna (Master.meets_8min r) = true ->
       fle (Master.meets_8min r) (Master.meets_8min (best_borough found)) = true
       /\ fle (Master.meets_8min (worst_borough found)) (Master.meets_8min r) = true
       /\ (Master.total_calls r <= Master.total_calls (busiest_borough found))%Z.
Proof.
  unfold key_insights. intros H.
  destruct (meets_8min_column master) as [c|] eqn:C; [|discriminate].
  cbn [bind] in H. apply meets_8min_column_inv in C. subst c.
  destruct (idxmax (map Master.meets_8min master)) as [i1|] eqn:E1; [|discriminate].
  cbn [bind] in H.
  destruct (loc master i1) as [r1|] eqn:L1; [|discriminate]. cbn [bind] in H.
  destruct (idxmin (map Master.meets_8min master)) as [i2|] eqn:E2; [|discriminate].
  cbn [bind] in H.
  destruct (loc master i2) as [r2|] eqn:L2; [|discriminate]. cbn [bind] in H.
  destruct (idxmax (map (fun r => of_Z (Master.total_calls r)) master))
    as [i3|] eqn:E3; [|discriminate].
  cbn [bind] in H.
  destruct (loc master i3) as [r3|] eqn:L3; [|discriminate]. cbn [bind] in H.
  inversion H; subst found; clear H. cbn [best_borough worst_borough busiest_borough].
  apply loc_inv in L1, L2, L3.
  destruct (idxmax_spec _ _ E1) as [m1 [N1 M1]].
  destruct (idxmin_spec _ _ E2) as [m2 [N2 M2]].
  destruct (idxmax_spec _ _ E3) as [m3 [N3 M3]].
  pose proof (column_nth _ _ _ _ _ L1 N1) as V1.
  pose proof (column_nth _ _ _ _ _ L2 N2) as V2.
  pose proof (column_nth _ _ _ _ _ L3 N3) as V3.
  split.
  - repeat split; eapply nth_error_In; eassumption.
  - intros r Hr Hdef.
    destruct (Master.meets_8min r) as [v|] eqn:Hv; [|discriminate].
    assert (Hin : In (Some v) (map Master.meets_8min master)).
    { rewrite <- Hv. apply in_map. exact Hr. }
    rewrite V1, V2. cbn [fle]. rewrite !Qle_bool_iff.
    split; [apply M1; exact Hin|]. split; [apply M2; exact Hin|].
    assert (Hc : In (Some (inject_Z (Master.total_calls r)))
                    (map (fun r => of_Z (Master.total_calls r)) master)).
    { apply (in_map (fun r => of_Z (Master.total_calls r))). exact Hr. }
    apply M3 in Hc. unfold of_Z in V3. inversion V3 as [V3'].
    rewrite <- V3' in Hc. rewrite <- Zle_Qle in Hc. exact Hc.
Qed.

(** ** Minutes *)

Lemma rint_error (q : Q) :
  - (1 # 2) <= inject_Z (rint q) - q <= 1 # 2.
Proof.
  unfold rint.
  pose proof (Qfloor_le q) as H1. pose proof (Qlt_floor q) as H2.
  rewrite inject_Z_plus in H2. change (inject_Z 1) with 1 in H2.
  destruct (Qcompare_spec (q - inject_Z (Qfloor q)) (1 # 2)) as [C|C|C].
  - destruct (Z.even (Qfloor q)).
    + lra.
    + rewrite inject_Z_plus. change (inject_Z 1) with 1. lra.
  - lra.
  - rewrite inject_Z_plus. change (inject_Z 1) with 1. lra.
Qed.

Lemma round_dec_1_error (q : Q) :
  - (1 # 20) <= round_dec 1 q - q <= 1 # 20.
Proof.
  unfold round_dec. rewrite Qred_correct.
  change (pow10 1) with 10.
  pose proof (rint_error (q * 10)) as H.
  set (z := inject_Z (rint (q * 10))) in *.
  assert (E : z / 10 - q == (z - q * 10) / 10) by (field).
  rewrite E.
  split.
  - apply Qle_shift_div_l; lra.
  - apply Qle_shift_div_r; lra.
Qed.

Lemma comparison_row_round_trip (row : Master.row) (v : Q) :
  Master.avg_dispatch_sec row = Some v ->
  exists m, Comparison.avg_minutes (comparison_row row) = Some m
            /\ - (3) <= m * 60 - v <= 3.
Proof.
  intros Hv. unfold comparison_row. cbn [Comparison.avg_minutes].
  rewrite Hv. unfold fdiv.
  change (Qeq_bool 60 0) with false. cbv iota. unfold fround.
  eexists. split; [reflexivity|].
  pose proof (round_dec_1_error (Qred (v / 60))) as H.
  rewrite (Qred_correct (v / 60)) in H at 2 4.
  assert (E : v / 60 * 60 == v) by field.
  set (m := round_dec 1 (Qred (v / 60))) in *.
  generalize dependent (v / 60). intros t H E. lra.
Qed.

(** X10. Every row of the comparison table comes from a row of the master
    table with the same borough, and its minutes, taken back to seconds, are
    within 3 seconds of the mean dispatch time of that row. *)
Theorem avg_minutes_round_trip (master : list Master.row) (c : Comparison.row) :
  In c (comparison_metrics master) ->
  exists row,
    In row master
    /\ Comparison.borough c = Master.borough row
    /\ forall v, Master.avg_dispatch_sec row = Some v ->
         exists m, Comparison.avg_minutes c = Some m
                   /\ - (3) <= m * 60 - v <= 3.
Proof.
  intros Hc. unfold comparison_metrics in Hc. apply in_map_iff in Hc.
  destruct Hc as [row [<- Hrow]]. exists row.
  split; [exact Hrow|]. split; [reflexivity|].
  apply comparison_row_round_trip.
Qed.

(** ** Display order *)

(** X11. The table shown in the detailed section holds the rows of the
    master table, each once, with the highest 8-minute rate first. *)
Theorem sorted_data_order (master : list Master.row) :
  Permutation (sorted_data master) master
  /\ Sorted rate_ge (sorted_data master).
Proof.
  unfold sorted_data, sort_values_desc. split.
  - apply sort_by_perm.
  - apply (sort_by_Sorted (fun a b => desc_leb (Master.meets_8min a)
                                               (Master.meets_8min b))).
    intros a b. apply desc_leb_total.
Qed.

(** ** The bucket tables *)

Lemma notna_perf_bucket (r : Incident.row) :
  notna (perf_bucket r) = fgt (Incident.dispatch_response_seconds_qy r) (Some 0).
Proof.
  destruct (Incident.dispatch_response_seconds_qy r) as [x|] eqn:Hx.
  - pose proof (perf_bucket_defined r x Hx) as H.
    unfold fgt, flt.
    destruct (Qle_bool x 0) eqn:E; qbool; simpl.
    + destruct (notna (perf_bucket r)); [|reflexivity].
      exfalso. assert (0 < x) by (apply H; reflexivity). lra.
    + apply H. lra.
  - unfold perf_bucket. rewrite Hx. reflexivity.
Qed.

(** X12. The count table has one row for each of the four buckets, largest
    count first, and its counts add up to the number of incidents with a
    positive dispatch time. *)
Theorem bucket_counts_table (ds : list Incident.row) :
  Permutation (map fst (bucket_counts ds)) categories
  /\ Sorted count_ge (bucket_counts ds)
  /\ incidents_total (bucket_counts ds)
     = List.length
         (filter (fun r => fgt (Incident.dispatch_response_seconds_qy r) (Some 0))
                 ds).
Proof.
  split; [|split].
  - unfold bucket_counts.
    eapply perm_trans; [apply Permutation_map, sort_by_perm|].
    rewrite map_map. simpl. apply Permutation_refl.
  - unfold bucket_counts, count_ge.
    pose proof (sort_by_Sorted (fun a b : bucket * nat => Nat.leb (snd b) (snd a))) as H.
    eapply Sorted_ind with (P := fun l => Sorted (fun a b => (snd b <= snd a)%nat) l).
    + constructor.
    + intros a l _ IH Hhd. constructor; [exact IH|].
      destruct Hhd as [|b l' Hb]; constructor.
      apply Nat.leb_le. exact Hb.
    + apply H. intros a b.
      destruct (Nat.leb (snd b) (snd a)) eqn:E; [left; reflexivity|right].
      apply Nat.leb_le. apply Nat.leb_gt in E. lia.
  - rewrite bucket_counts_total. unfold tabulated.
    rewrite (filter_ext _ _ notna_perf_bucket). reflexivity.
Qed.

Lemma count_bucket_le_length (b : bucket) (g : list Incident.row) :
  (count_bucket b g <= List.length g)%nat.
Proof. unfold count_bucket. apply filter_length_le. Qed.

Lemma share_in_range (b : bucket) (g : list Incident.row) :
  g <> [] -> score_in_range (share b g).
Proof.
  intros Hg. unfold share, of_nat, of_Z, fdiv.
  pose proof (count_bucket_le_length b g) as Hle.
  set (c := count_bucket b g) in *. set (n := List.length g) in *.
  assert (Hn : (0 < n)%nat) by (subst n; destruct g; [contradiction | simpl; lia]).
  assert (Hn0 : 0 < inject_Z (Z.of_nat n))
    by (change 0 with (inject_Z 0); rewrite <- Zlt_Qlt; lia).
  destruct (Qeq_bool (inject_Z (Z.of_nat n)) 0) eqn:E.
  - apply Qeq_bool_iff in E. lra.
  - unfold fmul, fround, score_in_range. eexists. split; [reflexivity|].
    change 0 with (inject_Z 0). change 100 with (inject_Z 100).
    apply round_dec_range.
    assert (Hc0 : 0 <= inject_Z (Z.of_nat c))
      by (change 0 with (inject_Z 0); rewrite <- Zle_Qle; lia).
    assert (Hcn : inject_Z (Z.of_nat c) <= inject_Z (Z.of_nat n))
      by (rewrite <- Zle_Qle; lia).
    assert (H0 : 0 <= inject_Z (Z.of_nat c) / inject_Z (Z.of_nat n))
      by (apply Qle_shift_div_l; lra).
    assert (H1 : inject_Z (Z.of_nat c) / inject_Z (Z.of_nat n) <= 1)
      by (apply Qle_shift_div_r; lra).
    generalize dependent (inject_Z (Z.of_nat c) / inject_Z (Z.of_nat n)).
    intros t H0 H1. change (inject_Z 0) with 0. change (inject_Z 100) with 100.
    split; rewrite ?Qred_correct; lra.
Qed.

(** X13. The share table has a row exactly for the boroughs that have an
    incident with a positive dispatch time; each row has a cell exactly for
    the buckets that some incident with a borough falls in, and every share
    is a number between 0 and 100. *)
Theorem perf_by_borough_rows (ds : list Incident.row) :
  (forall k, In k (map fst (perf_by_borough ds))
             <-> exists r, In r ds
                           /\ Incident.borough r = Some k
                           /\ fgt (Incident.dispatch_response_seconds_qy r) (Some 0)
                              = true)
  /\ (forall k cells, In (k, cells) (perf_by_borough ds) ->
        (forall b, In b (map fst cells)
                   <-> exists r, In r ds
                                 /\ notna (Incident.borough r) = true
                                 /\ perf_bucket r = Some b)
        /\ forall b v, In (b, v) cells -> score_in_range v).
Proof.
  split.
  - intros k. unfold perf_by_borough, groupby. rewrite !map_map. simpl.
    rewrite map_id, group_keys_In. unfold tabulated.
    split; intros [r [Hr Hb]].
    + apply filter_In in Hr. destruct Hr as [Hr Hn].
      rewrite notna_perf_bucket in Hn. exists r. auto.
    + destruct Hb as [Hb Hpos]. exists r. split; [|exact Hb].
      apply filter_In. split; [exact Hr|]. rewrite notna_perf_bucket. exact Hpos.
  - intros k cells Hin. unfold perf_by_borough, groupby in Hin.
    rewrite map_map in Hin. apply in_map_iff in Hin.
    destruct Hin as [k' [E Hk']]. simpl in E. inversion E; subst k cells; clear E.
    split.
    + intros b. rewrite map_map. simpl. rewrite map_id. apply observed_In.
    + intros b v Hbv. apply in_map_iff in Hbv. destruct Hbv as [b' [E _]].
      inversion E; subst b v. apply share_in_range.
      apply group_nonempty. exact Hk'.
Qed.

(** ** Buckets follow the dispatch time *)

(** X14. A slower incident is never in a better bucket: of two incidents
    that have a bucket, the one with the greater dispatch time has a bucket at
    least as late in the order Excellent, Good, Poor, Critical. *)
Theorem perf_bucket_monotone (r1 r2 : Incident.row) (x1 x2 : Q) (b1 b2 : bucket) :
  Incident.dispatch_response_seconds_qy r1 = Some x1 ->
  Incident.dispatch_response_seconds_qy r2 = Some x2 ->
  x1 <= x2 ->
  perf_bucket r1 = Some b1 ->
  perf_bucket r2 = Some b2 ->
  (bucket_rank b1 <= bucket_rank b2)%nat.
Proof.
  intros H1 H2 Hle B1 B2.
  rewrite (perf_bucket_value r1 x1 H1) in B1.
  rewrite (perf_bucket_value r2 x2 H2) in B2.
  destruct (Qle_bool x1 0) eqn:A0; destruct (Qle_bool x1 300) eqn:A3;
    destruct (Qle_bool x1 480) eqn:A4; destruct (Qle_bool x1 600) eqn:A6;
    simpl in B1; inversion B1; subst b1;
    destruct (Qle_bool x2 0) eqn:C0; destruct (Qle_bool x2 300) eqn:C3;
    destruct (Qle_bool x2 480) eqn:C4; destruct (Qle_bool x2 600) eqn:C6;
    simpl in B2; inversion B2; subst b2; simpl; try lia;
    qbool; exfalso; lra.
Qed.

(** ** Citywide rate *)

(** X15. On a table with at least one incident the citywide 8-minute rate
    is a number between 0 and 100. *)
Theorem overall_8min_rate_in_range (ds : list Incident.row) :
  ds <> [] -> score_in_range (overall_8min_rate (kpi_summary ds)).
Proof.
  intros Hg. cbn [kpi_summary overall_8min_rate].
  rewrite bool_mean_nonempty
    by (unfold le_scalar, dispatch_col; apply map_nonempty, map_nonempty, Hg).
  unfold fmul, score_in_range. eexists. split; [reflexivity|].
  rewrite !Qred_correct.
  pose proof (bool_sum_le_length (le_scalar 480 (dispatch_col ds))) as Hle.
  set (s := bool_sum (le_scalar 480 (dispatch_col ds))) in *.
  set (n := List.length (le_scalar 480 (dispatch_col ds))) in *.
  assert (Hn : (0 < n)%nat).
  { subst n. unfold le_scalar, dispatch_col. rewrite !length_map.
    destruct ds; [contradiction | simpl; lia]. }
  assert (Hs0 : 0 <= inject_Z (Z.of_nat s))
    by (change 0 with (inject_Z 0); rewrite <- Zle_Qle; lia).
  assert (Hsn : inject_Z (Z.of_nat s) <= inject_Z (Z.of_nat n))
    by (rewrite <- Zle_Qle; lia).
  assert (Hn0 : 0 < inject_Z (Z.of_nat n))
    by (change 0 with (inject_Z 0); rewrite <- Zlt_Qlt; lia).
  assert (H0 : 0 <= inject_Z (Z.of_nat s) / inject_Z (Z.of_nat n))
    by (apply Qle_shift_div_l; lra).
  assert (H1 : inject_Z (Z.of_nat s) / inject_Z (Z.of_nat n) <= 1)
    by (apply Qle_shift_div_r; lra).
  generalize dependent (inject_Z (Z.of_nat s) / inject_Z (Z.of_nat n)).
  intros t H0 H1. lra.
Qed.

(** ** The run as a whole *)

Lemma run_inv (raw : list Raw.row) (out : list widget) (rep : report) :
  run raw = (out, Ok rep) ->
  rep_kpi rep = kpi_summary (map coerced (filter survives raw))
  /\ key_insights (master_data (map coerced (filter survives raw)))
                  (overall_8min_rate (kpi_summary (map coerced (filter survives raw))))
     = Ok (rep_insights rep).
Proof.
  unfold run, main, sbind, lift, emit, ret. rewrite clean_dataset_ok.
  cbv beta iota.
  destruct (key_insights _ _) as [found|] eqn:K; cbv beta iota; [|discriminate].
  destruct (marker_size _) as [u|]; cbv beta iota; [|discriminate].
  destruct (fig_radar _) as [traces|]; cbv beta iota; [|discriminate].
  intros H. inversion H. split; reflexivity.
Qed.

Lemma key_insights_recommendation
      (master : list Master.row) (rate8 : float) (found : insights) :
  key_insights master rate8 = Ok found ->
  reallocation_needed found = flt rate8 (Some 85).
Proof.
  unfold key_insights. intros H.
  destruct (meets_8min_column master) as [c|]; [|discriminate]. cbn [bind] in H.
  destruct (idxmax c); [|discriminate]. cbn [bind] in H.
  destruct (loc master _); [|discriminate]. cbn [bind] in H.
  destruct (idxmin c); [|discriminate]. cbn [bind] in H.
  destruct (loc master _); [|discriminate]. cbn [bind] in H.
  destruct (idxmax (map (fun r => of_Z (Master.total_calls r)) master));
    [|discriminate].
  cbn [bind] in H.
  destruct (loc master _); [|discriminate]. cbn [bind] in H.
  inversion H. reflexivity.
Qed.

(** X16. A report never recommends reallocating resources while its status
    line reads "Meeting Standards": the recommendation (rate below 85) implies
    the status "Below Target" (rate below 90). *)
Theorem recommendation_implies_below_target
        (raw : list Raw.row) (out : list widget) (rep : report) :
  run raw = (out, Ok rep) ->
  reallocation_needed (rep_insights rep) = true ->
  below_target (rep_kpi rep) = true.
Proof.
  intros H Hrec. destruct (run_inv raw out rep H) as [Hk Hi].
  rewrite (key_insights_recommendation _ _ _ Hi) in Hrec.
  rewrite Hk. cbn [kpi_summary below_target overall_8min_rate] in *.
  destruct (fmul _ _) as [x|]; [|discriminate].
  unfold flt in *. apply negb_true_iff in Hrec. apply negb_true_iff.
  destruct (Qle_bool 90 x) eqn:E; [|reflexivity].
  qbool. exfalso. lra.
Qed.

(** ** Percentiles *)

Lemma sort_by_q_sorted (l : list Q) : StronglySorted q_le (sort_by Qle_bool l).
Proof.
  apply Sorted_StronglySorted.
  - intros a b c H1 H2. unfold q_le in *. qbool. apply Qle_bool_iff. lra.
  - apply (sort_by_Sorted Qle_bool Qle_bool_total).
Qed.

Lemma sorted_nth_mono (v : list Q) :
  StronglySorted q_le v ->
  forall i j, (i <= j)%nat -> (j < List.length v)%nat -> nth i v 0 <= nth j v 0.
Proof.
  induction 1 as [|a l Hs IH Hall]; intros i j Hij Hj.
  - simpl in Hj. lia.
  - destruct i as [|i], j as [|j]; simpl in *.
    + lra.
    + rewrite Forall_forall in Hall.
      apply Qle_bool_iff. apply Hall. apply nth_In. lia.
    + lia.
    + apply IH; lia.
Qed.

Lemma quantile_sorted_interp (v : list Q) (q : Q) :
  v <> [] ->
  exists x, quantile_sorted v q = Some x
            /\ x == interp v (q * inject_Z (Z.of_nat (List.length v - 1))).
Proof.
  intros Hv. unfold quantile_sorted, interp.
  destruct v as [|a v]; [contradiction|].
  set (l := a :: v) in *.
  set (pos := q * inject_Z (Z.of_nat (List.length l - 1))).
  destruct (Qeq_bool (pos - inject_Z (Qfloor pos)) 0) eqn:E.
  - eexists. split; [reflexivity|].
    apply Qeq_bool_iff in E. rewrite E. ring.
  - eexists. split; [reflexivity|]. apply Qred_correct.
Qed.

Lemma Qfloor_nonneg (p : Q) : 0 <= p -> (0 <= Qfloor p)%Z.
Proof.
  intros H. change 0%Z with (Qfloor 0). apply Qfloor_resp_le. exact H.
Qed.

Lemma interp_mono (v : list Q) (p1 p2 : Q) :
  StronglySorted q_le v ->
  0 <= p1 -> p1 <= p2 -> p2 <= inject_Z (Z.of_nat (List.length v - 1)) ->
  v <> [] ->
  interp v p1 <= interp v p2.
Proof.
  intros Hs H0 H12 Hn Hv.
  pose proof (sorted_nth_mono v Hs) as Hm.
  assert (Hlen : (1 <= List.length v)%nat) by (destruct v; [contradiction | simpl; lia]).
  unfold interp.
  pose proof (Qfloor_le p1) as F1. pose proof (Qlt_floor p1) as G1.
  pose proof (Qfloor_le p2) as F2. pose proof (Qlt_floor p2) as G2.
  rewrite inject_Z_plus in G1, G2. change (inject_Z 1) with 1 in G1, G2.
  pose proof (Qfloor_nonneg p1 H0) as N1.
  pose proof (Qfloor_resp_le p1 p2 H12) as L12.
  pose proof (Qfloor_resp_le _ _ Hn) as LN. rewrite Qfloor_Z in LN.
  set (f1 := Qfloor p1) in *. set (f2 := Qfloor p2) in *.
  set (n := List.length v) in *.
  assert (B2 : (Z.to_nat f2 <= n - 1)%nat) by lia.
  (* the value at [p2] is at least the entry at its index *)
  assert (Lo2 : nth (Z.to_nat f2) v 0
                <= nth (Z.to_nat f2) v 0
                   + (nth (Z.to_nat f2 + 1) v 0 - nth (Z.to_nat f2) v 0)
                     * (p2 - inject_Z f2)).
  { destruct (Nat.eq_dec (Z.to_nat f2) (n - 1)) as [E|E].
    - assert (Hz : p2 - inject_Z f2 == 0).
      { assert (inject_Z f2 == inject_Z (Z.of_nat (n - 1))).
        { apply inject_Z_injective. lia. }
        lra. }
      rewrite Hz. lra.
    - assert (Hd : nth (Z.to_nat f2) v 0 <= nth (Z.to_nat f2 + 1) v 0)
        by (apply Hm; lia).
      assert (0 <= (nth (Z.to_nat f2 + 1) v 0 - nth (Z.to_nat f2) v 0)
                   * (p2 - inject_Z f2))
        by (apply Qmult_le_0_compat; lra).
      lra. }
  destruct (Z.eq_dec f1 f2) as [E|E].
  - rewrite E in *.
    destruct (Nat.eq_dec (Z.to_nat f2) (n - 1)) as [E'|E'].
    + assert (Hz2 : p2 - inject_Z f2 == 0).
      { assert (inject_Z f2 == inject_Z (Z.of_nat (n - 1))).
        { apply inject_Z_injective. lia. }
        lra. }
      assert (Hz1 : p1 - inject_Z f2 == 0) by lra.
      rewrite Hz1, Hz2. lra.
    + assert (Hd : nth (Z.to_nat f2) v 0 <= nth (Z.to_nat f2 + 1) v 0)
        by (apply Hm; lia).
      assert (0 <= (nth (Z.to_nat f2 + 1) v 0 - nth (Z.to_nat f2) v 0)
                   * ((p2 - inject_Z f2) - (p1 - inject_Z f2)))
        by (apply Qmult_le_0_compat; lra).
      lra.
  - assert (Hlt : (f1 + 1 <= f2)%Z) by lia.
    assert (Hd : nth (Z.to_nat f1) v 0 <= nth (Z.to_nat f1 + 1) v 0)
      by (apply Hm; lia).
    assert (Up1 : nth (Z.to_nat f1) v 0
                  + (nth (Z.to_nat f1 + 1) v 0 - nth (Z.to_nat f1) v 0)
                    * (p1 - inject_Z f1)
                  <= nth (Z.to_nat f1 + 1) v 0).
    { assert (0 <= (nth (Z.to_nat f1 + 1) v 0 - nth (Z.to_nat f1) v 0)
                   * (1 - (p1 - inject_Z f1)))
        by (apply Qmult_le_0_compat; lra).
      lra. }
    assert (Mid : nth (Z.to_nat f1 + 1) v 0 <= nth (Z.to_nat f2) v 0)
      by (apply Hm; lia).
    lra.
Qed.

Lemma series_quantile_mono (s : list float) (q1 q2 : Q) :
  present s <> [] ->
  0 <= q1 -> q1 <= q2 -> q2 <= 1 ->
  fle (series_quantile s q1) (series_quantile s q2) = true.
Proof.
  intros Hp H0 H12 H1. unfold series_quantile.
  set (v := sort_by Qle_bool (present s)).
  assert (Hv : v <> []).
  { intros E. apply Hp. apply length_zero_iff_nil.
    rewrite <- (sort_by_length Qle_bool). fold v. rewrite E. reflexivity. }
  destruct (quantile_sorted_interp v q1 Hv) as [x1 [E1 V1]].
  destruct (quantile_sorted_interp v q2 Hv) as [x2 [E2 V2]].
  rewrite E1, E2. cbn [fle]. apply Qle_bool_iff. rewrite V1, V2.
  assert (HN : 0 <= inject_Z (Z.of_nat (List.length v - 1)))
    by (change 0 with (inject_Z 0); rewrite <- Zle_Qle; lia).
  apply interp_mono.
  - apply sort_by_q_sorted.
  - apply Qmult_le_0_compat; assumption.
  - apply Qmult_le_compat_r; assumption.
  - generalize dependent (inject_Z (Z.of_nat (List.length v - 1))).
    intros N _ _ HN.
    assert (q2 * N <= 1 * N) by (apply Qmult_le_compat_r; assumption). lra.
  - exact Hv.
Qed.

Lemma percentile_data_row (ds : list Incident.row) (prow : Percentile.row) :
  In prow (percentile_data ds) <->
  exists k, In k (group_keys ds)
            /\ prow = percentile_row k (filter (in_group k) ds).
Proof.
  unfold percentile_data, groupby. rewrite map_map. simpl. rewrite in_map_iff.
  split; intros [k [H1 H2]]; exists k; split; auto.
Qed.

(** X18. In every row of the percentile table of a cleaned table the five
    percentiles are numbers in increasing order: p25, median, p75, p90, p95. *)
Theorem percentiles_ordered
        (raw : list Raw.row) (clean : list Incident.row) (prow : Percentile.row) :
  clean_dataset raw = Ok clean ->
  In prow (percentile_data clean) ->
  fle (Percentile.p25 prow) (Percentile.p50_median prow) = true
  /\ fle (Percentile.p50_median prow) (Percentile.p75 prow) = true
  /\ fle (Percentile.p75 prow) (Percentile.p90 prow) = true
  /\ fle (Percentile.p90 prow) (Percentile.p95 prow) = true.
Proof.
  intros H Hin. apply percentile_data_row in Hin. destruct Hin as [k [Hk ->]].
  pose proof (group_nonempty clean k Hk) as Hg.
  pose proof (clean_group_count raw clean k H) as Hc.
  set (g := filter (in_group k) clean) in *.
  assert (Hp : present (dispatch_col g) <> []).
  { intros E. apply Hg. apply length_zero_iff_nil.
    rewrite <- Hc, series_count_present, E. reflexivity. }
  unfold percentile_row.
  cbn [Percentile.p25 Percentile.p50_median Percentile.p75 Percentile.p90
       Percentile.p95].
  repeat split; apply series_quantile_mono; try exact Hp; lra.
Qed.

(** ** The percentile table in minutes *)

Lemma to_minutes_mono (a b : float) :
  fle a b = true -> fle (to_minutes a) (to_minutes b) = true.
Proof.
  destruct a as [x|], b as [y|]; try discriminate.
  unfold to_minutes, fdiv. change (Qeq_bool 60 0) with false. cbv iota.
  cbn [fle fround]. rewrite !Qle_bool_iff. intros H.
  apply round_dec_mono. rewrite !Qred_correct.
  apply Qmult_le_compat_r; [exact H | apply Qinv_le_0_compat; lra].
Qed.

(** X21. The percentile table as shown, in minutes to one decimal, keeps
    the percentiles of every borough in increasing order. *)
Theorem percentile_minutes_ordered
        (raw : list Raw.row) (clean : list Incident.row) (prow : Percentile.row) :
  clean_dataset raw = Ok clean ->
  In prow (percentile_minutes clean) ->
  fle (Percentile.p25 prow) (Percentile.p50_median prow) = true
  /\ fle (Percentile.p50_median prow) (Percentile.p75 prow) = true
  /\ fle (Percentile.p75 prow) (Percentile.p90 prow) = true
  /\ fle (Percentile.p90 prow) (Percentile.p95 prow) = true.
Proof.
  intros H Hin. unfold percentile_minutes in Hin. apply in_map_iff in Hin.
  destruct Hin as [p [<- Hp]].
  apply percentile_data_row in Hp. destruct Hp as [k [Hk ->]].
  pose proof (group_nonempty clean k Hk) as Hg.
  pose proof (clean_group_count raw clean k H) as Hc.
  set (g := filter (in_group k) clean) in *.
  assert (Hp : present (dispatch_col g) <> []).
  { intros E. apply Hg. apply length_zero_iff_nil.
    rewrite <- Hc, series_count_present, E. reflexivity. }
  unfold percentile_row.
  cbn [Percentile.p25 Percentile.p50_median Percentile.p75 Percentile.p90
       Percentile.p95].
  repeat split; apply to_minutes_mono, series_quantile_mono; try exact Hp; lra.
Qed.

(** ** The incident response time *)

(** X22. A raw record with a borough and a dispatch time that converts is in
    the cleaned table whatever its incident response cell holds, a cell that
    does not convert being missing there.  Its borough has a row in the
    borough statistics, whose call count is the number of cleaned records of
    the borough, the record included, while the mean and the median of the
    incident response time are taken over the records of the borough where
    that time is present. *)
Theorem incident_time_optional
        (raw : list Raw.row) (clean : list Incident.row)
        (b t : string) (d : Q) (c : cell) :
  clean_dataset raw = Ok clean ->
  In {| Raw.borough := Some b;
        Raw.final_call_type := t;
        Raw.dispatch_response_seconds_qy := Numeric d;
        Raw.incident_response_seconds_qy := c |} raw ->
  In {| Incident.borough := Some b;
        Incident.final_call_type := t;
        Incident.dispatch_response_seconds_qy := Some d;
        Incident.incident_response_seconds_qy :=
          match c with Numeric i => Some i | _ => None end |} clean
  /\ exists row,
       In row (borough_stats clean)
       /\ Stats.borough row = b
       /\ (1 <= Stats.total_calls row)%Z
       /\ Stats.total_calls row
          = Z.of_nat (List.length (filter (in_group b) clean))
       /\ Stats.avg_incident_sec row
          = fround 2 (mean_of (present (incident_col (filter (in_group b) clean))))
       /\ Stats.median_incident row
          = fround 2 (median_of (present (incident_col (filter (in_group b) clean)))).
Proof.
  intros H Hin.
  assert (Hc : In {| Incident.borough := Some b;
                     Incident.final_call_type := t;
                     Incident.dispatch_response_seconds_qy := Some d;
                     Incident.incident_response_seconds_qy :=
                       match c with Numeric i => Some i | _ => None end |} clean).
  { pose proof (clean_dataset_inv raw clean H) as E. rewrite E.
    apply in_map_iff. eexists.
    split; [|apply filter_In; split; [exact Hin|reflexivity]].
    unfold coerced. simpl. destruct c; reflexivity. }
  split; [exact Hc|].
  assert (Hk : In b (group_keys clean)).
  { apply group_keys_In. eexists. split; [exact Hc|reflexivity]. }
  exists (stats_row b (filter (in_group b) clean)).
  split; [apply borough_stats_row; exists b; auto|].
  split; [reflexivity|].
  pose proof (clean_group_count raw clean b H) as Hcnt.
  pose proof (group_nonempty clean b Hk) as Hg.
  cbn [stats_row Stats.total_calls Stats.avg_incident_sec Stats.median_incident].
  rewrite Hcnt, series_mean_present, series_median_present.
  split; [|repeat split].
  destruct (filter (in_group b) clean); [contradiction | simpl; lia].
Qed.

(** ** The further properties on the sample tables *)

Lemma master_data_boroughs_witness :
  (exists r, In r scenario_clean /\ Incident.borough r = Some "R1"%string)
  /\ In "R1"%string (map Master.borough (master_data scenario_clean)).
Proof.
  assert (H : exists r, In r scenario_clean
                        /\ Incident.borough r = Some "R1"%string).
  { exists scenario_first. split; [simpl; left; reflexivity | reflexivity]. }
  split; [exact H|].
  apply (proj2 (proj2 (master_data_boroughs scenario_clean))). exact H.
Defined.

Lemma total_calls_partition_witness :
  zsum (map Master.total_calls (master_data scenario_clean))
  = Z.of_nat (kpi_total_calls (kpi_summary scenario_clean)).
Proof.
  apply (total_calls_partition scenario_raw scenario_clean). reflexivity.
Defined.

Lemma extreme_delays_partition_witness :
  nansum (map Master.extreme_delays (master_data scenario_clean))
  == inject_Z (Z.of_nat (kpi_extreme_delays (kpi_summary scenario_clean))).
Proof.
  apply (extreme_delays_partition scenario_raw scenario_clean). reflexivity.
Defined.

Lemma master_row_in_range_witness :
  (1 <= Master.total_calls scenario_R1)%Z
  /\ notna (Master.avg_dispatch_sec scenario_R1) = true
  /\ notna (Master.median_dispatch_sec scenario_R1) = true
  /\ score_in_range (Master.meets_5min scenario_R1)
  /\ score_in_range (Master.meets_8min scenario_R1)
  /\ exists n, Master.extreme_delays scenario_R1 = Some (inject_Z (Z.of_nat n))
               /\ (Z.of_nat n <= Master.total_calls scenario_R1)%Z.
Proof.
  apply (master_row_in_range scenario_raw scenario_clean scenario_R1).
  - reflexivity.
  - vm_compute. left. reflexivity.
Defined.

Lemma reliability_score_in_range_witness :
  score_in_range (reliability_score (master_data scenario_clean) scenario_R2)
  /\ reliability_score (master_data scenario_clean) scenario_R2 = Some 0.
Proof.
  assert (Hin : In scenario_R2 (master_data scenario_clean)).
  { vm_compute. right. left. reflexivity. }
  destruct (reliability_score_in_range scenario_clean scenario_R2 Hin)
    as [Hr Hz].
  split; [exact Hr|]. apply Hz.
  - vm_compute. reflexivity.
  - reflexivity.
Defined.

Lemma radar_values_in_range_witness :
  Forall score_in_range
         (trace_r (trace_of (master_data scenario_clean) scenario_R1)).
Proof.
  apply (radar_values_in_range scenario_raw scenario_clean scenario_R1).
  - reflexivity.
  - exists 300, 700. split; [vm_compute; auto|]. split; [vm_compute; auto|].
    intros E. vm_compute in E. discriminate.
  - vm_compute. left. reflexivity.
Defined.

Lemma key_insights_extremes_witness :
  fle (Master.meets_8min scenario_R2)
      (Master.meets_8min (best_borough scenario_insights)) = true
  /\ fle (Master.meets_8min (worst_borough scenario_insights))
         (Master.meets_8min scenario_R2) = true
  /\ (Master.total_calls scenario_R2
      <= Master.total_calls (busiest_borough scenario_insights))%Z.
Proof.
  apply (proj2 (key_insights_extremes scenario_master
                  (overall_8min_rate (kpi_summary scenario_clean))
                  scenario_insights eq_refl)).
  - simpl. right. left. reflexivity.
  - reflexivity.
Defined.

Lemma avg_minutes_round_trip_witness :
  exists row,
    In row scenario_master
    /\ Comparison.borough (comparison_row scenario_R2) = Master.borough row
    /\ forall v, Master.avg_dispatch_sec row = Some v ->
         exists m, Comparison.avg_minutes (comparison_row scenario_R2) = Some m
                   /\ - (3) <= m * 60 - v <= 3.
Proof.
  apply (avg_minutes_round_trip scenario_master (comparison_row scenario_R2)).
  simpl. right. left. reflexivity.
Defined.

Lemma perf_by_borough_rows_witness :
  In "R2"%string (map fst (perf_by_borough scenario_clean))
  /\ In ("R1"%string, scenario_shares_R1) (perf_by_borough scenario_clean)
  /\ In Good (map fst scenario_shares_R1)
  /\ ~ In Poor (map fst scenario_shares_R1)
  /\ score_in_range (Some 50).
Proof.
  destruct (perf_by_borough_rows scenario_clean) as [Hrows Hcells].
  assert (Hin : In ("R1"%string, scenario_shares_R1)
                   (perf_by_borough scenario_clean)).
  { vm_compute. left. reflexivity. }
  destruct (Hcells "R1"%string scenario_shares_R1 Hin) as [Hcols Hrange].
  split; [|split; [exact Hin|split; [|split]]].
  - apply (proj2 (Hrows "R2"%string)).
    eexists. split; [simpl; right; right; left; reflexivity|].
    split; reflexivity.
  - apply (proj2 (Hcols Good)). exists scenario_second.
    split; [simpl; right; left; reflexivity|]. split; reflexivity.
  - intros HP. apply (proj1 (Hcols Poor)) in HP.
    destruct HP as [r [Hr [_ Hb]]]. simpl in Hr.
    destruct Hr as [<-|[<-|[<-|[]]]]; vm_compute in Hb; discriminate.
  - apply (Hrange Excellent). simpl. left. reflexivity.
Defined.

Lemma perf_bucket_monotone_witness :
  (bucket_rank Excellent <= bucket_rank Good)%nat.
Proof.
  apply (perf_bucket_monotone scenario_first scenario_second 200 400).
  - reflexivity.
  - reflexivity.
  - vm_compute. discriminate.
  - reflexivity.
  - reflexivity.
Defined.

Lemma overall_8min_rate_in_range_witness :
  score_in_range (overall_8min_rate (kpi_summary scenario_clean)).
Proof.
  apply (overall_8min_rate_in_range scenario_clean). discriminate.
Defined.

Lemma recommendation_implies_below_target_witness :
  reallocation_needed (rep_insights scenario_report) = true
  /\ below_target (rep_kpi scenario_report) = true.
Proof.
  split; [reflexivity|].
  apply (recommendation_implies_below_target scenario_raw
           (fst (run scenario_raw)) scenario_report).
  - vm_compute. reflexivity.
  - reflexivity.
Defined.

Lemma percentiles_ordered_witness :
  fle (Percentile.p25 scenario_percentiles_R1)
      (Percentile.p50_median scenario_percentiles_R1) = true
  /\ fle (Percentile.p50_median scenario_percentiles_R1)
         (Percentile.p75 scenario_percentiles_R1) = true
  /\ fle (Percentile.p75 scenario_percentiles_R1)
         (Percentile.p90 scenario_percentiles_R1) = true
  /\ fle (Percentile.p90 scenario_percentiles_R1)
         (Percentile.p95 scenario_percentiles_R1) = true.
Proof.
  apply (percentiles_ordered scenario_raw scenario_clean scenario_percentiles_R1).
  - reflexivity.
  - simpl. left. reflexivity.
Defined.

Lemma percentile_minutes_ordered_witness :
  fle (Percentile.p25 scenario_minutes_R1)
      (Percentile.p50_median scenario_minutes_R1) = true
  /\ fle (Percentile.p50_median scenario_minutes_R1)
         (Percentile.p75 scenario_minutes_R1) = true
  /\ fle (Percentile.p75 scenario_minutes_R1)
         (Percentile.p90 scenario_minutes_R1) = true
  /\ fle (Percentile.p90 scenario_minutes_R1)
         (Percentile.p95 scenario_minutes_R1) = true.
Proof.
  apply (percentile_minutes_ordered scenario_raw scenario_clean
           scenario_minutes_R1).
  - reflexivity.
  - vm_compute. left. reflexivity.
Defined.

Lemma incident_time_optional_witness :
  In scenario_second scenario_clean
  /\ exists row,
       In row (borough_stats scenario_clean)
       /\ Stats.borough row = "R1"%string
       /\ (1 <= Stats.total_calls row)%Z
       /\ Stats.total_calls row = Z.of_nat (List.length scenario_group_R1)
       /\ Stats.avg_incident_sec row
          = fround 2 (mean_of (present (incident_col scenario_group_R1)))
       /\ Stats.median_incident row
          = fround 2 (median_of (present (incident_col scenario_group_R1))).
Proof.
  apply (incident_time_optional scenario_raw scenario_clean
           "R1"%string ""%string 400 (Malformed "n/a")).
  - reflexivity.
  - simpl. right. left. reflexivity.
Defined.
